(** * Sushi v2 pool tags: the tag module [src/main.mts], embedded and verified

    The module asks a subgraph gateway for the liquidity pools of a chain,
    page after page, and turns the LP tokens of the pools into contract tags.

    Conventions of the embedding.
    - A JavaScript string is a [string]: one [ascii] stands for one UTF-16
      code unit, so the strings covered are the ones over U+0000..U+00FF.
      [String.length] is [.length], [String.eqb] is [===].
    - A JavaScript number that the module only uses as an integer (chain id,
      block number, HTTP status, maximal label length) is a [Z].
    - The gateway is the environment: a function from the requests that were
      sent before and the request at hand to what [fetch] settles with.
    - The body of a reply is what [json()] makes of it: no JSON document,
      the document [null], or a document read through the members that the
      module reads, at the types that its interfaces declare.
    - The asynchronous code is sequential (every call is awaited), so it is
      written in a state and error monad over the log of requests and the
      console; the [while] loop takes fuel. *)

From Stdlib Require Import ZArith Lia Ascii String List Bool.
From stdpp Require Import base decidable option list gmap strings.

Local Open Scope string_scope.
Local Open Scope Z_scope.
Local Open Scope list_scope.

(** ** JavaScript string primitives used by the module *)

Module Js.

(** White space and line terminators that [String.prototype.trim] strips,
    among the code units below 256: TAB, LF, VT, FF, CR, SP, NBSP. *)
Definition isTrimSpace (c : ascii) : bool :=
  let n := N_of_ascii c in
  ((9 <=? n) && (n <=? 13) || (n =? 32) || (n =? 160))%N.

Fixpoint trimStart (s : string) : string :=
  match s with
  | String c s' => if isTrimSpace c then trimStart s' else s
  | EmptyString => EmptyString
  end.

(** [trimEnd] keeps a character when it is no space or when something
    is left after it. *)
Fixpoint trimEnd (s : string) : string :=
  match s with
  | String c s' =>
      match trimEnd s' with
      | EmptyString => if isTrimSpace c then EmptyString else String c EmptyString
      | t => String c t
      end
  | EmptyString => EmptyString
  end.

(** [s.trim()] *)
Definition trim (s : string) : string := trimEnd (trimStart s).

(** [s.length] as a number *)
Definition length (s : string) : Z := Z.of_nat (String.length s).

(** [s.substring(0, e)]: a negative end counts as 0, an end beyond the
    length as the length. *)
Definition substring0 (e : Z) (s : string) : string :=
  String.substring 0 (Z.to_nat e) s.

(** [s.includes(p)] *)
Fixpoint includes (p s : string) : bool :=
  String.prefix p s ||
  match s with
  | String _ s' => includes p s'
  | EmptyString => false
  end.

(** [s.replace(p, r)] for a string pattern [p] and a replacement [r]
    without [$]: the first occurrence of [p] is replaced. *)
Fixpoint replace (p r s : string) : string :=
  if String.prefix p s
  then r +:+ String.substring (String.length p) (String.length s) s
  else match s with
       | String c s' => String c (replace p r s')
       | EmptyString => EmptyString
       end.

(** [/^\d+$/.test(s)]: one or more characters, all of them in 0..9. *)
Definition isDigit (c : ascii) : bool :=
  let n := N_of_ascii c in ((48 <=? n) && (n <=? 57))%N.

Fixpoint allDigits (s : string) : bool :=
  match s with
  | String c s' => isDigit c && allDigits s'
  | EmptyString => true
  end.

Definition testDecimal (s : string) : bool :=
  match s with
  | EmptyString => false
  | _ => allDigits s
  end.

(** [Number(s)] for a string of decimal digits, as the integer it denotes.
    The double that JavaScript computes is this integer up to 2^53 and is
    at least 2^53 (or Infinity) above, so that it is one of the supported
    chain numbers exactly when this integer is. *)
Fixpoint digitsValue (acc : Z) (s : string) : Z :=
  match s with
  | String c s' => digitsValue (10 * acc + (Z.of_N (N_of_ascii c) - 48)) s'
  | EmptyString => acc
  end.

Definition Number (s : string) : Z := digitsValue 0 s.

(** [String(n)] for an integer below 10^21: its decimal numeral. *)
Definition digitChar (d : Z) : ascii := ascii_of_N (Z.to_N (48 + d)).

Fixpoint decimalDigits (fuel : nat) (n : Z) (acc : string) : string :=
  match fuel with
  | O => acc
  | S fuel' =>
      let acc' := String (digitChar (n mod 10)) acc in
      if n / 10 =? 0 then acc' else decimalDigits fuel' (n / 10) acc'
  end.

Definition toString (n : Z) : string :=
  if n <? 0 then String "-" (decimalDigits 22 (- n) EmptyString)
  else decimalDigits 22 n EmptyString.

(** [encodeURIComponent(s)]: letters, digits and [-_.!~*'()] stay, every
    other character becomes the percent-escapes of its UTF-8 bytes (one
    byte below U+0080, two bytes from there to U+00FF). *)
Definition isUnreserved (c : ascii) : bool :=
  let n := N_of_ascii c in
  ((65 <=? n) && (n <=? 90) || (97 <=? n) && (n <=? 122) ||
   (48 <=? n) && (n <=? 57) ||
   existsb (N.eqb n) [45; 95; 46; 33; 126; 42; 39; 40; 41])%N.

Definition hexDigit (d : N) : ascii :=
  ascii_of_N (if (d <? 10)%N then 48 + d else 55 + d)%N.

Definition percent (b : N) : string :=
  String "%" (String (hexDigit (b / 16)) (String (hexDigit (b mod 16)) EmptyString)).

Definition encodeChar (c : ascii) : string :=
  let n := N_of_ascii c in
  if isUnreserved c then String c EmptyString
  else if (n <? 128)%N then percent n
  else percent (192 + n / 64) +:+ percent (128 + n mod 64).

Fixpoint encodeURIComponent (s : string) : string :=
  match s with
  | String c s' => encodeChar c +:+ encodeURIComponent s'
  | EmptyString => EmptyString
  end.

End Js.

(** ** Types *)

(** A token descriptor [{ id, symbol, name }].  The module reads [symbol]
    and [name] through [?.], so both may be absent. *)
Module Token.
Record t : Type := mk {
  id : string;
  symbol : option string;
  name : option string }.
End Token.

(** [interface LiquidityPool] *)
Module LiquidityPool.
Record t : Type := mk {
  id : string;
  name : string;
  symbol : option string;
  inputTokens : option (list Token.t);
  outputToken : option Token.t }.
End LiquidityPool.

(** [ContractTag] of atq-types, with the five fields that the module fills. *)
Record ContractTag : Type := mkTag {
  Contract_Address : string;
  Public_Name_Tag : string;
  Project_Name : string;
  UI_Website_Link : string;
  Public_Note : string }.

(** ** Transform to tags *)

(** [truncateString(text, maxLength)] *)
Definition truncateString (text : string) (maxLength : Z) : string :=
  if Js.length text >? maxLength
  then Js.substring0 (maxLength - 3) text +:+ "..."
  else text.

(** One round of the [for] loop of [transformPoolsToTags]: the tags and the
    set of seen ids after the round on [pool]. *)
Definition transformStep (chainId : string) (pool : LiquidityPool.t)
    (st : list ContractTag * gset string) : list ContractTag * gset string :=
  let '(tags, seen) := st in
  match LiquidityPool.outputToken pool with
  | None => st
  | Some lpToken =>
      if String.eqb (Token.id lpToken) "" || bool_decide (Token.id lpToken ∈ seen)
      then st
      else
        let seen := {[ Token.id lpToken ]} ∪ seen in
        let lpSymbol := default "" (Js.trim <$> Token.symbol lpToken) in
        let lpName := default "" (Js.trim <$> Token.name lpToken) in
        if String.eqb lpSymbol "" then (tags, seen)
        else
          let maxLen := 45 in
          let publicNameTag := truncateString (lpSymbol +:+ " Pool") maxLen in
          let publicNote :=
            "Sushi's " +:+ lpSymbol +:+ " (" +:+ lpName +:+ ") pool contract." in
          ((tags ++ [ {| Contract_Address :=
                          "eip155:" +:+ chainId +:+ ":" +:+ Token.id lpToken;
                        Public_Name_Tag := publicNameTag;
                        Project_Name := "Sushi";
                        UI_Website_Link := "https://www.sushi.com/";
                        Public_Note := publicNote |} ]),
           seen)
  end.

Fixpoint transformLoop (chainId : string) (pools : list LiquidityPool.t)
    (st : list ContractTag * gset string) : list ContractTag * gset string :=
  match pools with
  | [] => st
  | pool :: rest => transformLoop chainId rest (transformStep chainId pool st)
  end.

(** [transformPoolsToTags(chainId, pools)] *)
Definition transformPoolsToTags (chainId : string)
    (pools : list LiquidityPool.t) : list ContractTag :=
  fst (transformLoop chainId pools ([], ∅)).

(** The two records of the end-to-end example of the specification: A
    with its LP token, B without one. *)
Definition poolA : LiquidityPool.t :=
  LiquidityPool.mk "0x111" "Pool A" None None
    (Some (Token.mk "0xaaa" (Some "SLP") (Some "Sushi LP Token"))).

Definition poolB : LiquidityPool.t :=
  LiquidityPool.mk "0x222" "Pool B" None None None.

(** ** The gateway and what the module exchanges with it *)

(** [variables: { lastId, block }] of the pools query *)
Record Variables : Type := mkVariables {
  lastId : string;
  block : Z }.

(** A POST request: the address and the two members of its JSON body. *)
Record Request : Type := mkRequest {
  url : string;
  query : string;
  variables : option Variables }.

(** [{ message: string }] *)
Record GraphQLError : Type := mkGraphQLError { message : string }.

(** The [data] member of a reply, through the two paths that the module
    reads: [data._meta.block.number] when it is a number, and
    [data.liquidityPools]. *)
Record GraphQLData : Type := mkData {
  meta_block_number : option Z;
  liquidityPools : option (list LiquidityPool.t) }.

(** [interface GraphQLResponse].  [errors] is tested for truthiness, and an
    array is truthy even when it is empty. *)
Record GraphQLResponse : Type := mkGraphQLResponse {
  data : option GraphQLData;
  errors : option (list GraphQLError) }.

(** What [json()] settles with: a rejection when the body is no JSON
    document ([NotJson], the rejection of the parser), else the document,
    which is [null] or is read through the members of [GraphQLResponse] (a
    document that is no object has none of them). *)
Inductive Body : Type :=
| NotJson
| JsonNull
| JsonValue (document : GraphQLResponse).

(** The response of [fetch]: [ok], [status], and the body as [json()]
    gives it. *)
Record Response : Type := mkResponse {
  ok : bool;
  status : Z;
  body : Body }.

(** The document of a body that is one and is not [null]. *)
Definition json (response : Response) : option GraphQLResponse :=
  match body response with
  | JsonValue document => Some document
  | NotJson | JsonNull => None
  end.

(** How the promise of [fetch] settles.  [Aborted] is the [AbortError] that
    the 30 second timer of the caller provokes when no response came. *)
Inductive Settled : Type :=
| Fulfilled (response : Response)
| Aborted
| Rejected (reason : string).

(** The gateway answers a request knowing the requests sent before it
    (oldest first). *)
Definition Gateway : Type := list Request -> Request -> Settled.

(** ** Errors *)

(** One constructor per [throw] of the module, and [Passed] for a rejection
    that the module lets through unchanged. *)
Inductive Error : Type :=
| UnsupportedChainId (originalChainId : string)
| MissingApiKey
| SubgraphUrlNotConfigured (originalChainId : string)
| HttpErrorMeta (status : Z)
| MetaBlockNumberUnreadable
| MetaTimedOut
| HttpErrorPools (status : Z)
| PoolsTimedOut
| GraphQLErrorPools
| CursorDidNotAdvance
| InvalidJson
| NullResult
| Passed (reason : string).

(** The message of the [Error] object, where the module writes it; the
    text for [InvalidJson] stands for the one of the fetch library, the text
    for [NullResult] for the one of the [TypeError] that reading [errors]
    of [null] raises. *)
Definition errorMessage (e : Error) : string :=
  match e with
  | UnsupportedChainId c =>
      "Unsupported Chain ID: " +:+ c +:+
      ". Only 56 (BNB Chain), 137 (Polygon), 250 (Fantom), and 1285 (Moonriver) are currently supported in this module."
  | MissingApiKey => "Missing API key. A The Graph gateway API key is required."
  | SubgraphUrlNotConfigured c =>
      "Subgraph URL not configured for Chain ID: " +:+ c +:+
      ". Please provide the official Messari Sushiswap subgraph URL."
  | HttpErrorMeta s => "HTTP error (meta): " +:+ Js.toString s
  | MetaBlockNumberUnreadable =>
      "Failed to read _meta.block.number from subgraph response"
  | MetaTimedOut => "Request timed out while querying _meta for block number."
  | HttpErrorPools s => "HTTP error (pools): " +:+ Js.toString s
  | PoolsTimedOut => "Request timed out while querying the pools subgraph."
  | GraphQLErrorPools => "GraphQL error from pools subgraph."
  | CursorDidNotAdvance => "Pagination cursor (pools) did not advance; aborting."
  | InvalidJson => "invalid json response body"
  | NullResult => "Cannot read properties of null (reading 'errors')"
  | Passed reason => reason
  end.

(** The names that the specification gives to the failures. *)
Inductive ErrorKind : Type :=
| ValidationError | ConfigurationError | TransportError | TimeoutError
| QueryError | SchemaError | PaginationStallError | OtherError.

Definition errorKind (e : Error) : ErrorKind :=
  match e with
  | UnsupportedChainId _ | MissingApiKey => ValidationError
  | SubgraphUrlNotConfigured _ => ConfigurationError
  | HttpErrorMeta _ | HttpErrorPools _ => TransportError
  | MetaTimedOut | PoolsTimedOut => TimeoutError
  | GraphQLErrorPools => QueryError
  | MetaBlockNumberUnreadable => SchemaError
  | CursorDidNotAdvance => PaginationStallError
  | InvalidJson | NullResult | Passed _ => OtherError
  end.

(** ** The monad of the asynchronous code *)

(** What one invocation has done to the outside: requests sent and lines
    written with [console.error], oldest first. *)
Record World : Type := mkWorld {
  requests : list Request;
  console : list string }.

Definition quiet : World := mkWorld [] [].

Inductive Outcome (A : Type) : Type :=
| Returned (a : A)
| Thrown (e : Error)
| Unfinished.

Arguments Returned {A} a.
Arguments Thrown {A} e.
Arguments Unfinished {A}.

Definition M (A : Type) : Type := World -> Outcome A * World.

Definition ret {A} (a : A) : M A := fun w => (Returned a, w).

Definition throw {A} (e : Error) : M A := fun w => (Thrown e, w).

Definition unfinished {A} : M A := fun w => (Unfinished, w).

Definition bind {A B} (m : M A) (k : A -> M B) : M B :=
  fun w =>
    match m w with
    | (Returned a, w') => k a w'
    | (Thrown e, w') => (Thrown e, w')
    | (Unfinished, w') => (Unfinished, w')
    end.

Notation "'let!' x ':=' m 'in' k" := (bind m (fun x => k))
  (at level 10, x name, m at level 100, k at level 200).

Fixpoint forEach {A} (f : A -> M unit) (l : list A) : M unit :=
  match l with
  | [] => ret tt
  | a :: l' => let! _ := f a in forEach f l'
  end.

Definition console_error (line : string) : M unit :=
  fun w => (Returned tt, mkWorld (requests w) (console w ++ [line])).

(** ** Configuration and queries *)

Definition SUBGRAPH_URLS : gmap string string :=
  list_to_map
    [ ("56", "https://gateway.thegraph.com/api/[api-key]/deployments/id/QmPi9QJjaPfoTEwfNMiuqoZmTc1RGFi3DeZy4UERDDqSJn");
      ("137", "https://gateway.thegraph.com/api/[api-key]/deployments/id/Qmc3gbKAd1eemQbaTvY93S2FpuPEipGaVKCQ97pBkXgtyN");
      ("250", "https://gateway.thegraph.com/api/[api-key]/deployments/id/QmZ3Zs57Bt9njPji3Ty6A9761hwQaHYYGMCjs5f7oiidxz");
      ("1285", "https://gateway.thegraph.com/api/[api-key]/deployments/id/QmZw2kXL8tt6FoNeo4qLSN3rbe9tkWtGxDtBV3iWJMEkf7") ].

Definition supportedChains : list Z := [56; 137; 250; 1285].

Definition GET_META_BLOCK_QUERY : string := "
  query { _meta { block { number } } }
".

Definition GET_POOLS_QUERY : string := "
  query GetPools($lastId: ID, $block: Int!) {
    liquidityPools(
      first: 1000
      orderBy: id
      orderDirection: asc
      where: { id_gt: $lastId }
      block: { number: $block }
    ) {
      id
      name
      symbol
      inputTokens {
        id
        symbol
        name
      }
      outputToken {
        id
        symbol
        name
      }
    }
  }
".

(** The first value of [lastId] in [returnTags]. *)
Definition initialCursor : string :=
  "0x0000000000000000000000000000000000000000".

Section Service.

Variable gateway : Gateway.

(** [await fetch(url, { method: "POST", headers, body, signal })] *)
Definition fetch (request : Request) : M Settled :=
  fun w =>
    (Returned (gateway (requests w) request),
     mkWorld (requests w ++ [request]) (console w)).

(** [fetchIndexedBlockNumber(subgraphUrl)].  The optional chain
    [json?.data?._meta?.block?.number] gives [undefined], which is no
    number, when the document is [null]. *)
Definition fetchIndexedBlockNumber (subgraphUrl : string) : M Z :=
  let! settled :=
    fetch (mkRequest subgraphUrl GET_META_BLOCK_QUERY None) in
  match settled with
  | Fulfilled resp =>
      if negb (ok resp) then throw (HttpErrorMeta (status resp))
      else match body resp with
           | NotJson => throw InvalidJson
           | JsonNull => throw MetaBlockNumberUnreadable
           | JsonValue document =>
               match data document ≫= meta_block_number with
               | Some blockNumber => ret blockNumber
               | None => throw MetaBlockNumberUnreadable
               end
           end
  | Aborted => throw MetaTimedOut
  | Rejected e => throw (Passed e)
  end.

(** [fetchPools(subgraphUrl, lastId, blockNumber)].  [result.errors] is read
    without a test of [result], so the document [null] raises a
    [TypeError]. *)
Definition fetchPools (subgraphUrl lastId : string) (blockNumber : Z)
    : M (list LiquidityPool.t) :=
  let! settled :=
    fetch (mkRequest subgraphUrl GET_POOLS_QUERY
             (Some (mkVariables lastId blockNumber))) in
  match settled with
  | Aborted => throw PoolsTimedOut
  | Rejected e => throw (Passed e)
  | Fulfilled response =>
      if negb (ok response) then throw (HttpErrorPools (status response))
      else match body response with
           | NotJson => throw InvalidJson
           | JsonNull => throw NullResult
           | JsonValue result =>
               match errors result with
               | Some errs =>
                   let! _ :=
                     forEach (fun error =>
                       console_error
                         ("GraphQL error (pools): " +:+ message error)) errs in
                   throw GraphQLErrorPools
               | None => ret (default [] (data result ≫= liquidityPools))
               end
           end
  end.

(** The [while (isMore)] loop of [returnTags], entered with [isMore]
    true; [fuel] bounds the number of rounds. *)
Fixpoint paginate (fuel : nat) (subgraphUrl : string) (blockNumber : Z)
    (lastId prevLastId : string) (allPools : list LiquidityPool.t)
    : M (list LiquidityPool.t) :=
  match fuel with
  | O => unfinished
  | S fuel' =>
      let! page := fetchPools subgraphUrl lastId blockNumber in
      let allPools := (allPools ++ page) in
      let isMore := (List.length page =? 1000)%nat in
      if isMore then
        let nextLastId := default "" (LiquidityPool.id <$> last page) in
        if String.eqb nextLastId "" || String.eqb nextLastId lastId
           || String.eqb nextLastId prevLastId
        then throw CursorDidNotAdvance
        else paginate fuel' subgraphUrl blockNumber nextLastId lastId allPools
      else ret allPools
  end.

(** [SUBGRAPH_URLS[chainKey]?.replace("[api-key]", encodeURIComponent(apiKey))] *)
Definition resolveSubgraphUrl (chainKey apiKey : string) : option string :=
  Js.replace "[api-key]" (Js.encodeURIComponent apiKey)
    <$> SUBGRAPH_URLS !! chainKey.

(** [TagService.returnTags(chainId, apiKey)].  [Number.isInteger] only
    fails on Infinity here, which is no supported chain either, so the
    test on [supportedChains] stands for both. *)
Definition returnTags (fuel : nat) (chainId apiKey : string)
    : M (list ContractTag) :=
  let originalChainId := chainId in
  let trimmedChainId := Js.trim chainId in
  if negb (Js.testDecimal trimmedChainId)
  then throw (UnsupportedChainId originalChainId)
  else
    let chainIdNum := Js.Number trimmedChainId in
    if negb (existsb (Z.eqb chainIdNum) supportedChains)
    then throw (UnsupportedChainId originalChainId)
    else
      if String.eqb apiKey "" || (Js.length (Js.trim apiKey) =? 0)
      then throw MissingApiKey
      else
        let chainKey := Js.toString chainIdNum in
        match resolveSubgraphUrl chainKey apiKey with
        | None => throw (SubgraphUrlNotConfigured originalChainId)
        | Some subgraphUrl =>
            if String.eqb subgraphUrl ""
               || Js.includes "PLACEHOLDER" subgraphUrl
            then throw (SubgraphUrlNotConfigured originalChainId)
            else
              let! blockNumber := fetchIndexedBlockNumber subgraphUrl in
              let! allPools :=
                paginate fuel subgraphUrl blockNumber initialCursor "" [] in
              ret (transformPoolsToTags (Js.toString chainIdNum) allPools)
        end.

End Service.

(** A gateway that answers the n-th request of an invocation with the n-th
    entry of a script, and not at all once the script is used up. *)
Definition scripted (script : list Settled) : Gateway :=
  fun sent _ => nth (List.length sent) script Aborted.

(** A successful reply to the block query and to the pools query. *)
Definition metaReply (blockNumber : Z) : Settled :=
  Fulfilled (mkResponse true 200
    (JsonValue (mkGraphQLResponse (Some (mkData (Some blockNumber) None)) None))).

Definition pageReply (page : list LiquidityPool.t) : Settled :=
  Fulfilled (mkResponse true 200
    (JsonValue (mkGraphQLResponse (Some (mkData None (Some page))) None))).

(** * Vocabulary of the properties *)

(** What the specification asks of the label made from the trimmed symbol
    [s]. *)
Definition truncationLaw (s label : string) : Prop :=
  (String.length label <= 45)%nat /\
  ((45 < String.length s + 5)%nat ->
     String.length label = 45%nat /\
     String.substring 42 3 label = "..." /\
     String.substring 0 42 label = String.substring 0 42 (s +:+ " Pool")) /\
  ((String.length s + 5 <= 45)%nat -> label = s +:+ " Pool").

(** A record whose symbol, trimmed, has 43 characters: its label is cut. *)
Definition longToken : Token.t :=
  Token.mk "0xbbb" (Some " WETH-USDC-SUSHI-LIQUIDITY-PROVIDER-TOKEN-V2 ") None.

Definition longPool : LiquidityPool.t :=
  LiquidityPool.mk "0x333" "Long pool" None None (Some longToken).

(** The address field written for the token id [i]. *)
Definition tagAddress (chainId i : string) : string :=
  "eip155:" +:+ chainId +:+ ":" +:+ i.

(** The tags of [tags] that stand for the token id [i]. *)
Definition tagsFor (chainId i : string) (tags : list ContractTag)
    : list ContractTag :=
  filter (fun t => Contract_Address t = tagAddress chainId i) tags.

(** The token of a round that gets past the first [continue]. *)
Definition freshToken (pool : LiquidityPool.t) (seen : gset string)
    : option Token.t :=
  match LiquidityPool.outputToken pool with
  | Some lpToken =>
      if String.eqb (Token.id lpToken) "" || bool_decide (Token.id lpToken ∈ seen)
      then None else Some lpToken
  | None => None
  end.

(** What such a round pushes: nothing when the trimmed symbol is empty. *)
Definition tagOfToken (chainId : string) (lpToken : Token.t)
    : list ContractTag :=
  let lpSymbol := default "" (Js.trim <$> Token.symbol lpToken) in
  let lpName := default "" (Js.trim <$> Token.name lpToken) in
  if String.eqb lpSymbol "" then []
  else [ mkTag (tagAddress chainId (Token.id lpToken))
           (truncateString (lpSymbol +:+ " Pool") 45)
           "Sushi" "https://www.sushi.com/"
           ("Sushi's " +:+ lpSymbol +:+ " (" +:+ lpName +:+ ") pool contract.") ].

(** The record [pool] has an LP token with the id [i]. *)
Definition carries (i : string) (pool : LiquidityPool.t) : Prop :=
  exists lpToken,
    LiquidityPool.outputToken pool = Some lpToken /\ Token.id lpToken = i.

(** [a] comes strictly before [b] in the order of strings by code units,
    the order that [orderBy: id] and [id_gt] refer to. *)
Definition strLt (a b : string) : Prop := String.compare a b = Lt.

(** [page[page.length - 1].id], the candidate for the next cursor. *)
Definition nextCursor (page : list LiquidityPool.t) : string :=
  default "" (LiquidityPool.id <$> last page).

(** The request that [fetchPools] sends. *)
Definition poolsRequest (subgraphUrl cursor : string) (blockNumber : Z)
    : Request :=
  mkRequest subgraphUrl GET_POOLS_QUERY (Some (mkVariables cursor blockNumber)).

(** The page fetcher, called with the successive cursors from the world
    [w] on, returns the pages [pages] and then [final]. *)
Fixpoint served (gateway : Gateway) (subgraphUrl : string) (blockNumber : Z)
    (w : World) (cursor : string) (pages : list (list LiquidityPool.t))
    (final : list LiquidityPool.t) : Prop :=
  match pages with
  | [] =>
      fst (fetchPools gateway subgraphUrl cursor blockNumber w) = Returned final
  | page :: rest =>
      fst (fetchPools gateway subgraphUrl cursor blockNumber w) = Returned page /\
      served gateway subgraphUrl blockNumber
        (snd (fetchPools gateway subgraphUrl cursor blockNumber w))
        (nextCursor page) rest final
  end.

(** Every page of [pages] ends in an identifier that is not empty and is
    neither the cursor of its query nor the cursor before that one. *)
Fixpoint advancing (cursor prev : string) (pages : list (list LiquidityPool.t))
    : Prop :=
  match pages with
  | [] => True
  | page :: rest =>
      nextCursor page <> "" /\ nextCursor page <> cursor /\
      nextCursor page <> prev /\ advancing (nextCursor page) cursor rest
  end.

(** A page of 1000 records that all carry the identifier [i]. *)
Definition uniformPage (i : string) : list LiquidityPool.t :=
  repeat (LiquidityPool.mk i "pool" None None None) 1000.

(** An address for the runs of the driver on its own. *)
Definition exampleUrl : string := "https://gateway.example/sushi".

(** A page honours the bound [id_gt: cursor] of its query. *)
Definition aboveCursor (cursor : string) (page : list LiquidityPool.t) : Prop :=
  Forall (fun pool => strLt cursor (LiquidityPool.id pool)) page.

(** The request that [fetchIndexedBlockNumber] sends. *)
Definition metaRequest (subgraphUrl : string) : Request :=
  mkRequest subgraphUrl GET_META_BLOCK_QUERY None.

(** The credential passes the test of [returnTags]. *)
Definition apiKeyGiven (apiKey : string) : bool :=
  negb (String.eqb apiKey "" || (Js.length (Js.trim apiKey) =? 0)).

(** The gateway honours [where: { id_gt: $lastId }]: the pools of a reply
    to a pools query are above the cursor of the query. *)
Definition honoursIdGt (gateway : Gateway) : Prop :=
  forall sent subgraphUrl cursor blockNumber response result pools,
    gateway sent (poolsRequest subgraphUrl cursor blockNumber) =
      Fulfilled response ->
    json response = Some result ->
    data result ≫= liquidityPools = Some pools ->
    aboveCursor cursor pools.

(** A cursor that the zero address bounds from below. *)
Definition fromZero (cursor : string) : Prop :=
  cursor = initialCursor \/ strLt initialCursor cursor.

(** What [returnTags] sends, whatever the outcome: nothing, or the block
    query alone, or the block query and then pools queries, the first with
    the zero address as cursor and all of them with the zero address or an
    identifier above it. *)
Definition zeroBoundedLog (sent : list Request) : Prop :=
  sent = [] \/
  exists subgraphUrl,
    sent = [metaRequest subgraphUrl] \/
    exists blockNumber cursors,
      sent = metaRequest subgraphUrl ::
             poolsRequest subgraphUrl initialCursor blockNumber ::
             map (fun c => poolsRequest subgraphUrl c blockNumber) cursors /\
      Forall fromZero cursors.

(** A gateway that answers from a table of pools, kept in ascending order
    of identifier, as the two queries ask: the block, and the first 1000
    records above the cursor. *)
Definition indexer (blockNumber : Z) (table : list LiquidityPool.t) : Gateway :=
  fun _ request =>
    match variables request with
    | None => metaReply blockNumber
    | Some v =>
        pageReply
          (take 1000
             (List.filter
                (fun pool => String.ltb (lastId v) (LiquidityPool.id pool))
                table))
    end.

(** A pool that sits at the zero address. *)
Definition zeroPool : LiquidityPool.t :=
  LiquidityPool.mk initialCursor "Pool at the zero address" None None
    (Some (Token.mk "0xccc" (Some "ZERO") None)).

(** * Vocabulary of the further properties *)

(** The cursors that follow [cursor] in a run of the loop: each one is not
    empty and is neither the cursor before it nor the one before that. *)
Fixpoint fresh (prev cursor : string) (later : list string) : Prop :=
  match later with
  | [] => True
  | next :: rest =>
      next <> "" /\ next <> cursor /\ next <> prev /\ fresh cursor next rest
  end.

(** The address that the record would be tagged under, when it has an LP
    token. *)
Definition candidateAddress (chainId : string) (pool : LiquidityPool.t)
    : option string :=
  (fun lpToken => tagAddress chainId (Token.id lpToken))
    <$> LiquidityPool.outputToken pool.

(** Two records of one LP token: the first with a symbol of blanks only, the
    second with a proper symbol. *)
Definition blankPool : LiquidityPool.t :=
  LiquidityPool.mk "0x444" "Blank" None None
    (Some (Token.mk "0xddd" (Some "   ") (Some "Unnamed"))).

Definition namedPool : LiquidityPool.t :=
  LiquidityPool.mk "0x555" "Named" None None
    (Some (Token.mk "0xddd" (Some "DDD") (Some "Named"))).

(** The record A under another pool id, name and symbol, with input
    tokens, and the same LP token. *)
Definition poolA' : LiquidityPool.t :=
  LiquidityPool.mk "0x999" "Another pool" (Some "ANY")
    (Some [Token.mk "0xeee" (Some "WETH") (Some "Wrapped Ether")])
    (LiquidityPool.outputToken poolA).



(** The character [c] occurs in [s]. *)
Fixpoint occurs (c : ascii) (s : string) : bool :=
  match s with
  | String x s' => Ascii.eqb c x || occurs c s'
  | EmptyString => false
  end.

(** The characters that [encodeURIComponent] leaves or writes: the
    unreserved ones (the digits of an escape are among them) and the percent
    sign. *)
Fixpoint escaped (s : string) : bool :=
  match s with
  | String x s' => (Js.isUnreserved x || Ascii.eqb x "%") && escaped s'
  | EmptyString => true
  end.

(** The page fetcher, called with the successive cursors from the world
    [w] on, returns the pages [pages] and then throws [e]. *)
Fixpoint servedUntil (gateway : Gateway) (subgraphUrl : string)
    (blockNumber : Z) (w : World) (cursor : string)
    (pages : list (list LiquidityPool.t)) (e : Error) : Prop :=
  match pages with
  | [] =>
      fst (fetchPools gateway subgraphUrl cursor blockNumber w) = Thrown e
  | page :: rest =>
      fst (fetchPools gateway subgraphUrl cursor blockNumber w) = Returned page /\
      servedUntil gateway subgraphUrl blockNumber
        (snd (fetchPools gateway subgraphUrl cursor blockNumber w))
        (nextCursor page) rest e
  end.

(** The tag of [longPool] on chain 56. *)
Definition longTag : ContractTag :=
  mkTag "eip155:56:0xbbb" "WETH-USDC-SUSHI-LIQUIDITY-PROVIDER-TOKEN-V..."
    "Sushi" "https://www.sushi.com/"
    "Sushi's WETH-USDC-SUSHI-LIQUIDITY-PROVIDER-TOKEN-V2 () pool contract.".

(** * Properties *)

(** ** The primitives and the service on examples *)

Example trim_example : Js.trim " 137 " = "137".
Proof. reflexivity. Qed.

Example number_example : Js.Number "0137" = 137.
Proof. reflexivity. Qed.

Example toString_example : Js.toString 1285 = "1285".
Proof. reflexivity. Qed.

Example encode_example : Js.encodeURIComponent "a b/$" = "a%20b%2F%24".
Proof. reflexivity. Qed.

Example replace_example : Js.replace "[api-key]" "K" "x/[api-key]/y" = "x/K/y".
Proof. reflexivity. Qed.

Example transform_example :
  transformPoolsToTags "137" [poolA; poolB; poolA] =
  [ mkTag "eip155:137:0xaaa" "SLP Pool" "Sushi" "https://www.sushi.com/"
      "Sushi's SLP (Sushi LP Token) pool contract." ].
Proof. vm_compute. reflexivity. Qed.

Example returnTags_example :
  fst (returnTags (scripted [metaReply 7; pageReply [poolA; poolB]]) 1
         "137" "key" quiet) =
  Returned
    [ mkTag "eip155:137:0xaaa" "SLP Pool" "Sushi" "https://www.sushi.com/"
        "Sushi's SLP (Sushi LP Token) pool contract." ].
Proof. vm_compute. reflexivity. Qed.

(** ** Strings *)

Section StringFacts.

Lemma length_append (a b : string) :
  String.length (a +:+ b) = (String.length a + String.length b)%nat.
Proof. induction a as [|c a IH]; simpl; [reflexivity | now rewrite IH]. Qed.

Lemma substring0_length (n : nat) (s : string) :
  String.length (String.substring 0 n s) = Nat.min n (String.length s).
Proof.
  revert s; induction n as [|n IH]; intros [|c s]; simpl; try reflexivity.
  now rewrite IH.
Qed.

Lemma substring_skip_append (a b : string) (m : nat) :
  String.substring (String.length a) m (a +:+ b) = String.substring 0 m b.
Proof. induction a as [|c a IH]; simpl; [reflexivity | exact IH]. Qed.

Lemma substring0_append (a b : string) :
  String.substring 0 (String.length a) (a +:+ b) = a.
Proof.
  induction a as [|c a IH]; simpl; [now destruct b | now rewrite IH].
Qed.

Lemma substring0_all (n : nat) (s : string) :
  (String.length s <= n)%nat -> String.substring 0 n s = s.
Proof.
  revert s; induction n as [|n IH]; intros [|c s] H; simpl in *;
    try reflexivity; [lia | now rewrite IH by lia].
Qed.

Lemma substring0_idem (n : nat) (s : string) :
  String.substring 0 n (String.substring 0 n s) = String.substring 0 n s.
Proof.
  apply substring0_all. rewrite substring0_length. lia.
Qed.

End StringFacts.

(** ** The label of a tag *)

Lemma truncateString_long (text : string) :
  (45 < String.length text)%nat ->
  truncateString text 45 = String.substring 0 42 text +:+ "..." /\
  String.length (truncateString text 45) = 45%nat.
Proof.
  intros Hlong. unfold truncateString, Js.length, Js.substring0.
  destruct (Z.gtb_spec (Z.of_nat (String.length text)) 45) as [_|Hle]; [|lia].
  change (Z.to_nat (45 - 3)) with 42%nat. split; [reflexivity|].
  rewrite length_append, substring0_length.
  change (String.length "...") with 3%nat. lia.
Qed.

Lemma truncateString_short (text : string) :
  (String.length text <= 45)%nat -> truncateString text 45 = text.
Proof.
  intros Hshort. unfold truncateString, Js.length.
  destruct (Z.gtb_spec (Z.of_nat (String.length text)) 45) as [Hgt|_];
    [lia | reflexivity].
Qed.

Lemma truncateString_law (s : string) :
  truncationLaw s (truncateString (s +:+ " Pool") 45).
Proof.
  assert (Hlen : String.length (s +:+ " Pool") = (String.length s + 5)%nat)
    by (rewrite length_append; reflexivity).
  unfold truncationLaw.
  destruct (Nat.le_gt_cases (String.length s + 5) 45) as [Hshort|Hlong].
  - rewrite truncateString_short by lia.
    split; [lia|]. split; [lia | reflexivity].
  - destruct (truncateString_long (s +:+ " Pool")) as [Heq Hl]; [lia|].
    split; [lia|]. split; [|lia]. intros _. split; [exact Hl|].
    rewrite Heq.
    assert (H42 : String.length (String.substring 0 42 (s +:+ " Pool")) = 42%nat)
      by (rewrite substring0_length; lia).
    split.
    + rewrite <- H42 at 1. rewrite substring_skip_append. reflexivity.
    + rewrite <- H42 at 1. rewrite substring0_append. reflexivity.
Qed.

(** The tag that one pool with an unseen, named LP token contributes. *)
Lemma transform_single (chainId : string) (pool : LiquidityPool.t)
    (lpToken : Token.t) :
  LiquidityPool.outputToken pool = Some lpToken ->
  Token.id lpToken <> "" ->
  default "" (Js.trim <$> Token.symbol lpToken) <> "" ->
  transformPoolsToTags chainId [pool] =
  [ mkTag ("eip155:" +:+ chainId +:+ ":" +:+ Token.id lpToken)
      (truncateString (default "" (Js.trim <$> Token.symbol lpToken) +:+ " Pool") 45)
      "Sushi" "https://www.sushi.com/"
      ("Sushi's " +:+ default "" (Js.trim <$> Token.symbol lpToken) +:+ " (" +:+
       default "" (Js.trim <$> Token.name lpToken) +:+ ") pool contract.") ].
Proof.
  intros Hout Hid Hsym.
  unfold transformPoolsToTags. cbn [transformLoop transformStep].
  rewrite Hout.
  apply String.eqb_neq in Hid, Hsym. rewrite Hid, Hsym.
  rewrite bool_decide_eq_false_2 by set_solver.
  reflexivity.
Qed.

(** C4. For a record whose LP token has the trimmed symbol [s], not empty,
    the transformer emits a tag whose label is at most 45 characters long;
    when [len(s) + 5 > 45] the label is exactly 45 characters long, ends
    with the three dots and starts with the first 42 characters of
    [s ++ " Pool"]; otherwise it is [s ++ " Pool"]. *)
Theorem label_truncation_law (chainId : string) (pool : LiquidityPool.t)
    (lpToken : Token.t) (raw s : string) :
  LiquidityPool.outputToken pool = Some lpToken ->
  Token.id lpToken <> "" ->
  Token.symbol lpToken = Some raw ->
  Js.trim raw = s ->
  s <> "" ->
  exists tag,
    transformPoolsToTags chainId [pool] = [tag] /\
    truncationLaw s (Public_Name_Tag tag).
Proof.
  intros Hout Hid Hraw Htrim Hs.
  assert (Hsym : default "" (Js.trim <$> Token.symbol lpToken) = s)
    by (rewrite Hraw; exact Htrim).
  eexists. split.
  - apply (transform_single chainId pool lpToken Hout Hid).
    rewrite Hsym. exact Hs.
  - cbn [Public_Name_Tag]. rewrite Hsym. apply truncateString_law.
Qed.

Lemma label_truncation_law_witness :
  exists tag,
    transformPoolsToTags "137" [longPool] = [tag] /\
    truncationLaw "WETH-USDC-SUSHI-LIQUIDITY-PROVIDER-TOKEN-V2"
      (Public_Name_Tag tag).
Proof.
  apply (label_truncation_law "137" longPool longToken
           " WETH-USDC-SUSHI-LIQUIDITY-PROVIDER-TOKEN-V2 ");
    [reflexivity | discriminate | reflexivity | reflexivity | discriminate].
Defined.

(** ** One tag per LP token, from its first record *)

Section Transformer.

Variable chainId : string.

Lemma transformStep_eq pool tags seen :
  transformStep chainId pool (tags, seen) =
  match freshToken pool seen with
  | Some lpToken =>
      (tags ++ tagOfToken chainId lpToken, {[ Token.id lpToken ]} ∪ seen)
  | None => (tags, seen)
  end.
Proof.
  unfold transformStep, freshToken, tagOfToken.
  destruct (LiquidityPool.outputToken pool) as [lpToken|]; [|reflexivity].
  destruct (String.eqb (Token.id lpToken) "" || _); [reflexivity|].
  destruct (String.eqb _ ""); [|reflexivity].
  now rewrite app_nil_r.
Qed.

Lemma freshToken_spec pool seen lpToken :
  freshToken pool seen = Some lpToken <->
  LiquidityPool.outputToken pool = Some lpToken /\
  Token.id lpToken <> "" /\ (Token.id lpToken ∉ seen).
Proof.
  unfold freshToken.
  destruct (LiquidityPool.outputToken pool) as [tok|];
    [|split; [discriminate | intros [? _]; discriminate]].
  destruct (String.eqb_spec (Token.id tok) "") as [Hempty|Hfull]; simpl.
  - split; [discriminate | intros (Heq & Hid & _); congruence].
  - case_bool_decide as Hseen; split.
    + discriminate.
    + intros (Heq & _ & Hnew). congruence.
    + intros Heq. injection Heq as <-. auto.
    + intros (Heq & _ & _). exact Heq.
Qed.

Lemma tagAddress_inj i j : tagAddress chainId i = tagAddress chainId j -> i = j.
Proof.
  unfold tagAddress. intros H.
  repeat (apply (inj (String.app _)) in H). exact H.
Qed.

Lemma tagOfToken_address lpToken t :
  t ∈ tagOfToken chainId lpToken ->
  Contract_Address t = tagAddress chainId (Token.id lpToken).
Proof.
  unfold tagOfToken. destruct (String.eqb _ ""); [set_solver|].
  intros ->%list_elem_of_singleton. reflexivity.
Qed.

Lemma tagOfToken_length lpToken :
  (length (tagOfToken chainId lpToken) <= 1)%nat.
Proof. unfold tagOfToken. destruct (String.eqb _ ""); simpl; lia. Qed.

(** The tags already pushed only sit in front of the new ones. *)
Lemma transformLoop_tags pools tags seen :
  transformLoop chainId pools (tags, seen) =
  (tags ++ fst (transformLoop chainId pools ([], seen)),
   snd (transformLoop chainId pools ([], seen))).
Proof.
  revert tags seen. induction pools as [|pool rest IH]; intros tags seen.
  - simpl. now rewrite app_nil_r.
  - cbn [transformLoop]. rewrite !transformStep_eq.
    destruct (freshToken pool seen) as [lpToken|]; [|apply IH].
    rewrite (IH (tags ++ _)), (IH ([] ++ _)). cbn [fst snd].
    now rewrite app_assoc.
Qed.

Lemma transformLoop_app before after st :
  transformLoop chainId (before ++ after) st =
  transformLoop chainId after (transformLoop chainId before st).
Proof.
  revert st. induction before as [|pool rest IH]; intros st; [reflexivity|].
  simpl. apply IH.
Qed.

(** The ids seen after the loop: the ones seen before, and the ids, not
    empty, of the LP tokens of the records. *)
Lemma transformLoop_seen pools tags seen i :
  i ∈ snd (transformLoop chainId pools (tags, seen)) <->
  i ∈ seen \/
  (i <> "" /\ exists pool lpToken,
      pool ∈ pools /\ LiquidityPool.outputToken pool = Some lpToken /\
      Token.id lpToken = i).
Proof.
  revert tags seen. induction pools as [|pool rest IH]; intros tags seen.
  - simpl. split; [auto|].
    intros [?|(_ & p & ? & Hnil & _)]; [assumption|].
    now apply elem_of_nil in Hnil.
  - cbn [transformLoop]. rewrite transformStep_eq.
    destruct (freshToken pool seen) as [lpToken|] eqn:Hfresh.
    + apply freshToken_spec in Hfresh as (Hout & Hid & Hnew).
      rewrite IH, elem_of_union, elem_of_singleton. split.
      * intros [[->|?]|(? & p & t & ? & ? & ?)]; auto.
        -- right. split; [exact Hid|]. exists pool, lpToken.
           split; [left | auto].
        -- right. split; [assumption|]. exists p, t.
           split; [now right | auto].
      * intros [?|(? & p & t & Hin & ? & ?)]; auto.
        apply elem_of_cons in Hin as [->|?].
        -- left. left. congruence.
        -- right. split; [assumption|]. eauto.
    + rewrite IH. split.
      * intros [?|(? & p & t & ? & ? & ?)]; auto.
        right. split; [assumption|]. exists p, t.
        split; [now right | auto].
      * intros [?|(Hi & p & t & Hin & Hout & Ht)]; auto.
        apply elem_of_cons in Hin as [->|?].
        -- left. destruct (decide (i ∈ seen)) as [|Hnot]; [assumption|].
           exfalso. assert (freshToken pool seen = Some t) as Hsome
             by (apply freshToken_spec; subst i; auto).
           congruence.
        -- right. split; [assumption|]. eauto.
Qed.

(** Every tag pushed by the loop stands for a token id that was not seen
    when the loop started and that a record carries. *)
Lemma transformLoop_emitted pools seen t :
  t ∈ fst (transformLoop chainId pools ([], seen)) ->
  exists pool lpToken,
    pool ∈ pools /\ LiquidityPool.outputToken pool = Some lpToken /\
    (Token.id lpToken ∉ seen) /\
    Contract_Address t = tagAddress chainId (Token.id lpToken).
Proof.
  revert seen. induction pools as [|pool rest IH]; intros seen.
  - simpl. intros Hnil. now apply elem_of_nil in Hnil.
  - cbn [transformLoop]. rewrite transformStep_eq.
    destruct (freshToken pool seen) as [lpToken|] eqn:Hfresh.
    + apply freshToken_spec in Hfresh as (Hout & Hid & Hnew).
      rewrite transformLoop_tags. cbn [fst]. rewrite app_nil_l.
      intros Hin. apply elem_of_app in Hin as [Hin|Hin].
      * exists pool, lpToken. split; [left|].
        eauto using tagOfToken_address.
      * destruct (IH _ Hin) as (p & tok & ? & ? & Hfar & ?).
        exists p, tok. split; [now right|]. split; [assumption|].
        split; [|assumption].
        intros Hseen. apply Hfar, elem_of_union. now right.
    + intros Hin. destruct (IH _ Hin) as (p & tok & ? & ? & ? & ?).
      exists p, tok. split; [now right | auto].
Qed.

Lemma transformLoop_NoDup pools seen :
  NoDup (Contract_Address <$> fst (transformLoop chainId pools ([], seen))).
Proof.
  revert seen. induction pools as [|pool rest IH]; intros seen.
  - simpl. constructor.
  - cbn [transformLoop]. rewrite transformStep_eq.
    destruct (freshToken pool seen) as [lpToken|] eqn:Hfresh; [|apply IH].
    rewrite transformLoop_tags. cbn [fst]. rewrite app_nil_l, fmap_app.
    apply NoDup_app. split; [|split; [|apply IH]].
    + pose proof (tagOfToken_length lpToken).
      destruct (tagOfToken chainId lpToken) as [|t [|]]; simpl in *;
        [constructor | apply NoDup_singleton | lia].
    + intros a Ha Hb.
      apply list_elem_of_fmap in Ha as (t & -> & Ht).
      apply list_elem_of_fmap in Hb as (u & Hu & Hin).
      apply transformLoop_emitted in Hin as (p & tok & _ & _ & Hnew & Haddr).
      rewrite (tagOfToken_address _ _ Ht), Haddr in Hu.
      apply tagAddress_inj in Hu.
      apply Hnew, elem_of_union. left. apply elem_of_singleton. now symmetry.
Qed.

End Transformer.

Lemma tagsFor_none chainId i tags :
  (forall t, t ∈ tags -> Contract_Address t <> tagAddress chainId i) ->
  tagsFor chainId i tags = [].
Proof.
  intros Hnone. unfold tagsFor. induction tags as [|t tags IH]; [reflexivity|].
  rewrite filter_cons. destruct (decide _) as [Heq|_].
  - exfalso. apply (Hnone t); [left | exact Heq].
  - apply IH. intros u Hu. apply Hnone. now right.
Qed.

Lemma tagsFor_all chainId i tags :
  (forall t, t ∈ tags -> Contract_Address t = tagAddress chainId i) ->
  tagsFor chainId i tags = tags.
Proof.
  intros Hall. unfold tagsFor. induction tags as [|t tags IH]; [reflexivity|].
  rewrite filter_cons. destruct (decide _) as [_|Hne].
  - f_equal. apply IH. intros u Hu. apply Hall. now right.
  - exfalso. apply Hne, Hall. left.
Qed.

Lemma tagsFor_app chainId i l k :
  tagsFor chainId i (l ++ k) = tagsFor chainId i l ++ tagsFor chainId i k.
Proof. apply filter_app. Qed.

Lemma tagsFor_NoDup chainId i tags :
  NoDup (Contract_Address <$> tags) -> (length (tagsFor chainId i tags) <= 1)%nat.
Proof.
  induction tags as [|t tags IH]; intros Hnd; [simpl; lia|].
  rewrite fmap_cons in Hnd. apply NoDup_cons in Hnd as [Hfresh Hnd].
  unfold tagsFor. rewrite filter_cons. destruct (decide _) as [Heq|_].
  - fold (tagsFor chainId i tags). rewrite tagsFor_none; [simpl; lia|].
    intros u Hu Hcontra. apply Hfresh, list_elem_of_fmap.
    exists u. split; [congruence | exact Hu].
  - apply IH, Hnd.
Qed.

Lemma transform_one chainId pool :
  transformPoolsToTags chainId [pool] =
  match freshToken pool ∅ with
  | Some lpToken => tagOfToken chainId lpToken
  | None => []
  end.
Proof.
  unfold transformPoolsToTags. cbn [transformLoop].
  rewrite transformStep_eq. now destruct (freshToken pool ∅).
Qed.

(** The tags that stand for [i] come from the first record that carries
    [i], whatever was seen before, as long as [i] was not. *)
Lemma transformLoop_first chainId before pool after lpToken seen :
  LiquidityPool.outputToken pool = Some lpToken ->
  Token.id lpToken <> "" ->
  Token.id lpToken ∉ seen ->
  (forall p, p ∈ before -> ~ carries (Token.id lpToken) p) ->
  tagsFor chainId (Token.id lpToken)
    (fst (transformLoop chainId (before ++ pool :: after) ([], seen))) =
  tagOfToken chainId lpToken.
Proof.
  intros Hout Hid Hnew Hbefore.
  rewrite transformLoop_app.
  destruct (transformLoop chainId before ([], seen)) as [tags0 seen0] eqn:Hrun.
  assert (Hseen0 : Token.id lpToken ∉ seen0).
  { intros Hin. replace seen0 with (snd (transformLoop chainId before ([], seen)))
      in Hin by now rewrite Hrun.
    apply transformLoop_seen in Hin as [?|(_ & p & tok & Hp & Hpo & Hpi)];
      [auto|]. apply (Hbefore p Hp). now exists tok. }
  assert (Htags0 : tagsFor chainId (Token.id lpToken) tags0 = []).
  { apply tagsFor_none. intros t Ht Haddr.
    replace tags0 with (fst (transformLoop chainId before ([], seen)))
      in Ht by now rewrite Hrun.
    apply transformLoop_emitted in Ht as (p & tok & Hp & Hpo & _ & Hpa).
    rewrite Hpa in Haddr. apply tagAddress_inj in Haddr.
    apply (Hbefore p Hp). now exists tok. }
  rewrite transformLoop_tags. cbn [fst transformLoop].
  rewrite tagsFor_app, Htags0, app_nil_l, transformStep_eq.
  assert (Hfresh : freshToken pool seen0 = Some lpToken)
    by (apply freshToken_spec; auto).
  rewrite Hfresh, transformLoop_tags. cbn [fst].
  rewrite app_nil_l, tagsFor_app.
  rewrite tagsFor_all by apply tagOfToken_address.
  rewrite tagsFor_none; [apply app_nil_r|].
  intros t Ht Haddr.
  apply transformLoop_emitted in Ht as (p & tok & _ & _ & Hfar & Hpa).
  rewrite Hpa in Haddr. apply tagAddress_inj in Haddr.
  apply Hfar, elem_of_union. left. now apply elem_of_singleton.
Qed.

(** A record that repeats the token id of an earlier one changes nothing. *)
Lemma transformLoop_repeat chainId pools r :
  r ∈ pools ->
  transformPoolsToTags chainId (pools ++ [r]) = transformPoolsToTags chainId pools.
Proof.
  intros Hin. unfold transformPoolsToTags. rewrite transformLoop_app.
  destruct (transformLoop chainId pools ([], ∅)) as [tags seen] eqn:Hrun.
  cbn [transformLoop]. rewrite transformStep_eq.
  destruct (freshToken r seen) as [tok|] eqn:Hfresh; [|reflexivity].
  exfalso. apply freshToken_spec in Hfresh as (Hout & Hid & Hnew).
  apply Hnew.
  replace seen with (snd (transformLoop chainId pools ([], ∅)))
    by now rewrite Hrun.
  apply transformLoop_seen. right. split; [exact Hid|]. now exists r, tok.
Qed.

(** C5. The transformer emits at most one tag for each LP token id; the
    tags of an id are the ones of the first record that carries it (one tag,
    or none when its trimmed symbol is empty), the records that repeat the id
    add nothing; a record given twice yields what it yields once, which is
    exactly one tag when its token has an id and a symbol. *)
Theorem one_tag_per_token_first_wins (chainId : string)
    (pools : list LiquidityPool.t) :
  NoDup (Contract_Address <$> transformPoolsToTags chainId pools) /\
  (forall i, (length (tagsFor chainId i (transformPoolsToTags chainId pools)) <= 1)%nat) /\
  (forall before pool after lpToken,
      pools = before ++ pool :: after ->
      LiquidityPool.outputToken pool = Some lpToken ->
      Token.id lpToken <> "" ->
      (forall p, p ∈ before -> ~ carries (Token.id lpToken) p) ->
      tagsFor chainId (Token.id lpToken) (transformPoolsToTags chainId pools) =
      transformPoolsToTags chainId [pool]) /\
  (forall r, r ∈ pools ->
      transformPoolsToTags chainId (pools ++ [r]) =
      transformPoolsToTags chainId pools) /\
  (forall r lpToken,
      pools = [r; r] ->
      LiquidityPool.outputToken r = Some lpToken ->
      Token.id lpToken <> "" ->
      default "" (Js.trim <$> Token.symbol lpToken) <> "" ->
      exists tag,
        transformPoolsToTags chainId pools = [tag] /\
        transformPoolsToTags chainId [r] = [tag]).
Proof.
  assert (Hnd : NoDup (Contract_Address <$> transformPoolsToTags chainId pools))
    by apply transformLoop_NoDup.
  split; [exact Hnd|]. split; [intros i; now apply tagsFor_NoDup|].
  split; [|split].
  - intros before pool after lpToken -> Hout Hid Hbefore.
    unfold transformPoolsToTags at 1.
    rewrite (transformLoop_first chainId before pool after lpToken ∅)
      by (auto; apply not_elem_of_empty).
    rewrite transform_one.
    assert (Hfresh : freshToken pool ∅ = Some lpToken).
    { apply freshToken_spec. split; [exact Hout|]. split; [exact Hid|].
      apply not_elem_of_empty. }
    now rewrite Hfresh.
  - intros r Hin. now apply transformLoop_repeat.
  - intros r lpToken -> Hout Hid Hsym.
    eexists. split; [|apply (transform_single chainId r lpToken); assumption].
    rewrite <- (transform_single chainId r lpToken) by assumption.
    apply (transformLoop_repeat chainId [r] r). left.
Qed.

Lemma one_tag_per_token_first_wins_witness :
  tagsFor "137" "0xaaa"
    (transformPoolsToTags "137" [poolB; poolA; poolA]) =
  transformPoolsToTags "137" [poolA].
Proof.
  destruct (one_tag_per_token_first_wins "137" [poolB; poolA; poolA])
    as (_ & _ & Hfirst & _).
  apply (Hfirst [poolB] poolA [poolA]
           (Token.mk "0xaaa" (Some "SLP") (Some "Sushi LP Token")));
    [reflexivity | reflexivity | discriminate |].
  intros p Hp (tok & Hout & _).
  apply list_elem_of_singleton in Hp. subst p. discriminate Hout.
Defined.

(** ** The page fetcher *)

(** [json] gives a document for the bodies that hold one which is not
    [null], and for no other. *)
Lemma json_document (response : Response) (result : GraphQLResponse) :
  json response = Some result <-> body response = JsonValue result.
Proof.
  unfold json. destruct (body response); split; congruence.
Qed.

(** What [fetchPools] does with a reply that arrived with a success status,
    a JSON body that is not [null] and no [errors] member. *)
Lemma fetchPools_fulfilled (gateway : Gateway) (subgraphUrl cursor : string)
    (blockNumber : Z) (w : World) (response : Response)
    (result : GraphQLResponse) :
  gateway (requests w)
    (mkRequest subgraphUrl GET_POOLS_QUERY
       (Some (mkVariables cursor blockNumber))) = Fulfilled response ->
  ok response = true ->
  json response = Some result ->
  errors result = None ->
  fetchPools gateway subgraphUrl cursor blockNumber w =
  (Returned (default [] (data result ≫= liquidityPools)),
   mkWorld
     (requests w ++
      [mkRequest subgraphUrl GET_POOLS_QUERY
         (Some (mkVariables cursor blockNumber))])
     (console w)).
Proof.
  intros Hreply Hok Hjson Herrors.
  apply json_document in Hjson.
  unfold fetchPools, bind, fetch. rewrite Hreply, Hok. cbn [negb].
  rewrite Hjson, Herrors. reflexivity.
Qed.

(** C7, as the specification has it, fails: a reply with a success status
    whose body is the object with the one member [errors], an empty array,
    reports no error and has no [data], and a reply with a success status
    whose body is [null] has neither [errors] nor [data]; [fetchPools]
    throws on both, the query error on the first (an empty array is truthy)
    and the error of reading [errors] of [null] on the second. *)
Lemma empty_errors_counterexample :
  let emptyErrors :=
    mkResponse true 200 (JsonValue (mkGraphQLResponse None (Some []))) in
  let nullBody := mkResponse true 200 JsonNull in
  let sent :=
    mkWorld [mkRequest exampleUrl GET_POOLS_QUERY
               (Some (mkVariables initialCursor 7))] [] in
  (ok emptyErrors = true /\
   exists result,
     body emptyErrors = JsonValue result /\
     errors result = Some [] /\ data result = None) /\
  fetchPools (scripted [Fulfilled emptyErrors]) exampleUrl initialCursor 7
    quiet = (Thrown GraphQLErrorPools, sent) /\
  (ok nullBody = true /\ body nullBody = JsonNull) /\
  fetchPools (scripted [Fulfilled nullBody]) exampleUrl initialCursor 7
    quiet = (Thrown NullResult, sent).
Proof.
  cbv zeta. repeat split.
  eexists. repeat split.
Qed.

(** C7, amended. A reply to the pools query with a success status whose
    body is a JSON document other than [null] and has no [errors] member,
    in which [data] or [data.liquidityPools] is missing, makes [fetchPools]
    return the empty page; nothing is thrown and nothing is written to the
    console. *)
Theorem missing_data_is_empty_page (gateway : Gateway)
    (subgraphUrl cursor : string) (blockNumber : Z) (w : World)
    (response : Response) (result : GraphQLResponse) :
  gateway (requests w)
    (mkRequest subgraphUrl GET_POOLS_QUERY
       (Some (mkVariables cursor blockNumber))) = Fulfilled response ->
  ok response = true ->
  json response = Some result ->
  errors result = None ->
  data result = None \/
  (exists d, data result = Some d /\ liquidityPools d = None) ->
  fst (fetchPools gateway subgraphUrl cursor blockNumber w) = Returned [] /\
  console (snd (fetchPools gateway subgraphUrl cursor blockNumber w)) = console w.
Proof.
  intros Hreply Hok Hjson Herrors Hmissing.
  rewrite (fetchPools_fulfilled _ _ _ _ _ _ _ Hreply Hok Hjson Herrors).
  cbn [fst snd console]. split; [|reflexivity]. f_equal.
  destruct Hmissing as [->|(d & -> & Hd)]; [reflexivity|].
  simpl. now rewrite Hd.
Qed.

Lemma missing_data_is_empty_page_witness :
  fst (fetchPools
         (scripted [Fulfilled (mkResponse true 200
                      (JsonValue (mkGraphQLResponse (Some (mkData None None)) None)))])
         "https://gateway.example/sushi" initialCursor 7 quiet) = Returned [] /\
  console (snd (fetchPools
         (scripted [Fulfilled (mkResponse true 200
                      (JsonValue (mkGraphQLResponse (Some (mkData None None)) None)))])
         "https://gateway.example/sushi" initialCursor 7 quiet)) = console quiet.
Proof.
  apply (missing_data_is_empty_page _ _ _ _ _
           (mkResponse true 200
              (JsonValue (mkGraphQLResponse (Some (mkData None None)) None)))
           (mkGraphQLResponse (Some (mkData None None)) None));
    [reflexivity | reflexivity | reflexivity | reflexivity |].
  right. exists (mkData None None). split; reflexivity.
Defined.

(** ** Order of identifiers *)

Lemma strLt_irrefl (a : string) : ~ strLt a a.
Proof.
  unfold strLt. induction a as [|c a IH]; simpl; [discriminate|].
  unfold Ascii.compare. rewrite N.compare_refl. exact IH.
Qed.

Lemma strLt_trans (a b c : string) : strLt a b -> strLt b c -> strLt a c.
Proof.
  unfold strLt. revert b c.
  induction a as [|x a IH]; intros [|y b] [|z c]; simpl; try discriminate;
    try reflexivity.
  unfold Ascii.compare.
  destruct (N.compare_spec (N_of_ascii x) (N_of_ascii y)) as [Hxy|Hxy|Hxy];
    try discriminate;
    destruct (N.compare_spec (N_of_ascii y) (N_of_ascii z)) as [Hyz|Hyz|Hyz];
    try discriminate; intros Hab Hbc.
  - rewrite Hxy, Hyz, N.compare_refl. eauto.
  - rewrite Hxy. now apply N.compare_lt_iff in Hyz as ->.
  - rewrite <- Hyz. now apply N.compare_lt_iff in Hxy as ->.
  - assert (N_of_ascii x < N_of_ascii z)%N as Hxz by lia.
    now apply N.compare_lt_iff in Hxz as ->.
Qed.

Lemma strLt_empty (a : string) : a <> "" -> strLt "" a.
Proof. destruct a; [congruence | reflexivity]. Qed.

Lemma strLt_neq (a b : string) : strLt a b -> b <> a.
Proof. intros Hlt ->. exact (strLt_irrefl a Hlt). Qed.

Lemma strLt_nonempty (a b : string) : strLt a b -> b <> "".
Proof. intros Hlt ->. destruct a; discriminate Hlt. Qed.

(** ** The pagination driver *)

Section Driver.

Variable gateway : Gateway.
Variable subgraphUrl : string.
Variable blockNumber : Z.

Lemma forEach_console_error (prefix : string) (errs : list GraphQLError)
    (w : World) :
  forEach (fun error => console_error (prefix +:+ message error)) errs w =
  (Returned tt,
   mkWorld (requests w)
     (console w ++ map (fun error => prefix +:+ message error) errs)).
Proof.
  revert w. induction errs as [|e errs IH]; intros [sent lines].
  - simpl. unfold ret. now rewrite app_nil_r.
  - cbn [forEach]. unfold bind. cbn [console_error requests console].
    rewrite IH. cbn [requests console map]. now rewrite <- app_assoc.
Qed.

(** Every call of [fetchPools] sends one request, the pools query with
    the cursor; it never runs out of fuel. *)
Lemma fetchPools_sends (cursor : string) (w : World) :
  requests (snd (fetchPools gateway subgraphUrl cursor blockNumber w)) =
  requests w ++ [poolsRequest subgraphUrl cursor blockNumber] /\
  fst (fetchPools gateway subgraphUrl cursor blockNumber w) <> Unfinished.
Proof.
  unfold fetchPools, bind, fetch, poolsRequest.
  destruct (gateway _ _) as [response| |reason]; cbn;
    [|split; [reflexivity | discriminate]..].
  destruct (ok response); cbn; [|split; [reflexivity | discriminate]].
  destruct (body response) as [| |result]; cbn;
    [split; [reflexivity | discriminate]..|].
  destruct (errors result) as [errs|]; cbn;
    [|split; [reflexivity | discriminate]].
  rewrite forEach_console_error. cbn. split; [reflexivity | discriminate].
Qed.

(** One round of the loop, after the page came back. *)
Lemma paginate_round (fuel : nat) (cursor prev : string)
    (allPools page : list LiquidityPool.t) (w w' : World) :
  fetchPools gateway subgraphUrl cursor blockNumber w = (Returned page, w') ->
  paginate gateway (S fuel) subgraphUrl blockNumber cursor prev allPools w =
  if (length page =? 1000)%nat then
    if String.eqb (nextCursor page) "" || String.eqb (nextCursor page) cursor
       || String.eqb (nextCursor page) prev
    then (Thrown CursorDidNotAdvance, w')
    else paginate gateway fuel subgraphUrl blockNumber (nextCursor page)
           cursor (allPools ++ page) w'
  else (Returned (allPools ++ page), w').
Proof.
  intros Hfetch. cbn [paginate]. unfold bind at 1. rewrite Hfetch.
  fold (nextCursor page).
  destruct (length page =? 1000)%nat; [|reflexivity].
  now destruct (_ || _).
Qed.

Lemma paginate_fetch_thrown (fuel : nat) (cursor prev : string)
    (allPools : list LiquidityPool.t) (w w' : World) (e : Error) :
  fetchPools gateway subgraphUrl cursor blockNumber w = (Thrown e, w') ->
  paginate gateway (S fuel) subgraphUrl blockNumber cursor prev allPools w =
  (Thrown e, w').
Proof.
  intros Hfetch. cbn [paginate]. unfold bind at 1. now rewrite Hfetch.
Qed.

Lemma paginate_final (fuel : nat) (cursor prev : string)
    (allPools page : list LiquidityPool.t) (w w' : World) :
  fetchPools gateway subgraphUrl cursor blockNumber w = (Returned page, w') ->
  length page <> 1000%nat ->
  paginate gateway (S fuel) subgraphUrl blockNumber cursor prev allPools w =
  (Returned (allPools ++ page), w').
Proof.
  intros Hfetch Hshort. rewrite (paginate_round _ _ _ _ _ _ _ Hfetch).
  apply Nat.eqb_neq in Hshort. now rewrite Hshort.
Qed.

Lemma paginate_stall (fuel : nat) (cursor prev : string)
    (allPools page : list LiquidityPool.t) (w w' : World) :
  fetchPools gateway subgraphUrl cursor blockNumber w = (Returned page, w') ->
  length page = 1000%nat ->
  nextCursor page = "" \/ nextCursor page = cursor \/ nextCursor page = prev ->
  paginate gateway (S fuel) subgraphUrl blockNumber cursor prev allPools w =
  (Thrown CursorDidNotAdvance, w').
Proof.
  intros Hfetch Hfull Hstall. rewrite (paginate_round _ _ _ _ _ _ _ Hfetch).
  apply Nat.eqb_eq in Hfull. rewrite Hfull.
  destruct Hstall as [->|[->| ->]]; rewrite String.eqb_refl;
    now rewrite ?orb_true_r.
Qed.

Lemma paginate_advance (fuel : nat) (cursor prev : string)
    (allPools page : list LiquidityPool.t) (w w' : World) :
  fetchPools gateway subgraphUrl cursor blockNumber w = (Returned page, w') ->
  length page = 1000%nat ->
  nextCursor page <> "" -> nextCursor page <> cursor ->
  nextCursor page <> prev ->
  paginate gateway (S fuel) subgraphUrl blockNumber cursor prev allPools w =
  paginate gateway fuel subgraphUrl blockNumber (nextCursor page) cursor
    (allPools ++ page) w'.
Proof.
  intros Hfetch Hfull Hne Hcur Hprev.
  rewrite (paginate_round _ _ _ _ _ _ _ Hfetch).
  apply Nat.eqb_eq in Hfull. rewrite Hfull.
  apply String.eqb_neq in Hne, Hcur, Hprev. now rewrite Hne, Hcur, Hprev.
Qed.

End Driver.

(** C3. After a page of 1000 records the driver looks at the identifier of
    the last record: when it is empty, or the current cursor, or the cursor
    before it, the driver throws the stall error ([PaginationStallError]) and
    the only request of the round is the one that fetched this page; when it
    is none of the three, the loop goes on with it as the cursor. *)
Theorem stall_check_before_advancing (gateway : Gateway) (subgraphUrl : string)
    (blockNumber : Z) (fuel : nat) (cursor prev : string)
    (allPools page : list LiquidityPool.t) (w : World) :
  fst (fetchPools gateway subgraphUrl cursor blockNumber w) = Returned page ->
  length page = 1000%nat ->
  (nextCursor page = "" \/ nextCursor page = cursor \/ nextCursor page = prev ->
   exists e w',
     paginate gateway (S fuel) subgraphUrl blockNumber cursor prev allPools w =
       (Thrown e, w') /\
     errorKind e = PaginationStallError /\
     requests w' = requests w ++ [poolsRequest subgraphUrl cursor blockNumber]) /\
  (nextCursor page <> "" -> nextCursor page <> cursor ->
   nextCursor page <> prev ->
   paginate gateway (S fuel) subgraphUrl blockNumber cursor prev allPools w =
   paginate gateway fuel subgraphUrl blockNumber (nextCursor page) cursor
     (allPools ++ page)
     (snd (fetchPools gateway subgraphUrl cursor blockNumber w))).
Proof.
  intros Hpage Hfull.
  assert (Hfetch : fetchPools gateway subgraphUrl cursor blockNumber w =
                   (Returned page,
                    snd (fetchPools gateway subgraphUrl cursor blockNumber w)))
    by (rewrite <- Hpage; apply surjective_pairing).
  split.
  - intros Hstall. exists CursorDidNotAdvance. eexists.
    split; [exact (paginate_stall _ _ _ _ _ _ _ _ _ _ Hfetch Hfull Hstall)|].
    split; [reflexivity|]. apply fetchPools_sends.
  - intros Hne Hcur Hprev.
    exact (paginate_advance _ _ _ _ _ _ _ _ _ _ Hfetch Hfull Hne Hcur Hprev).
Qed.

Lemma stall_check_before_advancing_witness :
  exists e w',
    paginate (scripted [pageReply (uniformPage initialCursor)]) 1 exampleUrl 7
      initialCursor "" [] quiet = (Thrown e, w') /\
    errorKind e = PaginationStallError /\
    requests w' = requests quiet ++ [poolsRequest exampleUrl initialCursor 7].
Proof.
  apply (stall_check_before_advancing
           (scripted [pageReply (uniformPage initialCursor)]) exampleUrl 7 0
           initialCursor "" [] (uniformPage initialCursor) quiet);
    [vm_compute; reflexivity | vm_compute; reflexivity |].
  right. left. vm_compute. reflexivity.
Defined.

(** The loop returns the concatenation of the pages it is served, as long
    as the full pages end in fresh cursors. *)
Lemma paginate_concat (gateway : Gateway) (subgraphUrl : string)
    (blockNumber : Z) (pages : list (list LiquidityPool.t))
    (final : list LiquidityPool.t) :
  forall (cursor prev : string) (allPools : list LiquidityPool.t) (w : World),
    served gateway subgraphUrl blockNumber w cursor pages final ->
    Forall (fun page => length page = 1000%nat) pages ->
    (length final < 1000)%nat ->
    advancing cursor prev pages ->
    forall fuel, (length pages < fuel)%nat ->
      fst (paginate gateway fuel subgraphUrl blockNumber cursor prev allPools w) =
      Returned (allPools ++ concat (pages ++ [final])).
Proof.
  induction pages as [|page rest IH];
    intros cursor prev allPools w Hserved Hfull Hshort Hadv fuel Hfuel.
  - destruct fuel as [|fuel]; [simpl in Hfuel; lia|].
    cbn [served] in Hserved.
    rewrite (paginate_final gateway subgraphUrl blockNumber fuel cursor prev
               allPools final w
               (snd (fetchPools gateway subgraphUrl cursor blockNumber w)))
      by (try lia; rewrite <- Hserved; apply surjective_pairing).
    cbn [fst app concat]. now rewrite app_nil_r.
  - destruct fuel as [|fuel]; [simpl in Hfuel; lia|].
    cbn [served] in Hserved. destruct Hserved as [Hpage Hrest].
    apply Forall_cons in Hfull as [Hlen Hfull].
    destruct Hadv as (Hne & Hcur & Hprev & Hadv).
    rewrite (paginate_advance gateway subgraphUrl blockNumber fuel cursor prev
               allPools page w
               (snd (fetchPools gateway subgraphUrl cursor blockNumber w)))
      by (try assumption; rewrite <- Hpage; apply surjective_pairing).
    rewrite (IH _ _ _ _ Hrest Hfull Hshort Hadv) by (simpl in Hfuel; lia).
    cbn [app concat]. now rewrite app_assoc.
Qed.

(** C1, as the specification has it, fails: a full page that ends in the
    cursor of its own query stops the loop with the stall error, whatever
    page would come next. *)
Lemma concatenation_counterexample :
  let gateway := scripted [pageReply (uniformPage initialCursor); pageReply []] in
  let pages := [uniformPage initialCursor] in
  served gateway exampleUrl 7 quiet initialCursor pages [] /\
  Forall (fun page => length page = 1000%nat) pages /\
  (length ([] : list LiquidityPool.t) < 1000)%nat /\
  forall fuel,
    fst (paginate gateway fuel exampleUrl 7 initialCursor "" [] quiet) <>
    Returned (concat (pages ++ [[]])).
Proof.
  cbv zeta. split; [|split; [|split]].
  - split; vm_compute; reflexivity.
  - constructor; [vm_compute; reflexivity | constructor].
  - simpl. lia.
  - intros [|fuel]; [discriminate|].
    rewrite (paginate_stall _ exampleUrl 7 fuel initialCursor "" []
               (uniformPage initialCursor) quiet
               (mkWorld [poolsRequest exampleUrl initialCursor 7] []));
      [discriminate | vm_compute; reflexivity | vm_compute; reflexivity |].
    right. left. vm_compute. reflexivity.
Qed.

(** C1, amended. When the page fetcher returns a sequence of pages in
    which every page before the last has exactly 1000 records and ends in an
    identifier that is not empty and differs from the cursor of its query and
    from the cursor before it, and the last page has fewer than 1000 records,
    the loop of [returnTags] (cursor at the zero address, no earlier cursor,
    nothing accumulated) ends after one round per page and returns the
    concatenation of all the pages in order. *)
Theorem pagination_concatenates (gateway : Gateway) (subgraphUrl : string)
    (blockNumber : Z) (w : World) (pages : list (list LiquidityPool.t))
    (final : list LiquidityPool.t) (fuel : nat) :
  served gateway subgraphUrl blockNumber w initialCursor pages final ->
  Forall (fun page => length page = 1000%nat) pages ->
  (length final < 1000)%nat ->
  advancing initialCursor "" pages ->
  (length pages < fuel)%nat ->
  fst (paginate gateway fuel subgraphUrl blockNumber initialCursor "" [] w) =
  Returned (concat (pages ++ [final])).
Proof.
  intros Hserved Hfull Hshort Hadv Hfuel.
  now rewrite (paginate_concat gateway subgraphUrl blockNumber pages final
                 initialCursor "" [] w Hserved Hfull Hshort Hadv fuel Hfuel).
Qed.

Lemma pagination_concatenates_witness :
  fst (paginate
         (scripted [pageReply (uniformPage "0x01"); pageReply [poolA; poolB]])
         2 exampleUrl 7 initialCursor "" [] quiet) =
  Returned (concat ([uniformPage "0x01"] ++ [[poolA; poolB]])).
Proof.
  apply (pagination_concatenates
           (scripted [pageReply (uniformPage "0x01"); pageReply [poolA; poolB]])
           exampleUrl 7 quiet [uniformPage "0x01"] [poolA; poolB] 2).
  - split; vm_compute; reflexivity.
  - constructor; [vm_compute; reflexivity | constructor].
  - simpl. lia.
  - vm_compute. repeat split; discriminate.
  - simpl. lia.
Defined.

Lemma nextCursor_above (cursor : string) (page : list LiquidityPool.t) :
  aboveCursor cursor page -> page <> [] -> strLt cursor (nextCursor page).
Proof.
  intros Habove Hne. unfold nextCursor.
  destruct (last page) as [pool|] eqn:Hlast.
  - apply last_Some_elem_of in Hlast.
    exact (proj1 (Forall_forall _ _) Habove pool Hlast).
  - apply last_None in Hlast. contradiction.
Qed.

(** C2, as the specification has it, fails: a full page that ends in an
    identifier below the cursor, other than the cursor before, is taken;
    the loop goes on and the next query carries the lower cursor. *)
Lemma backward_cursor_counterexample :
  let gateway := scripted [pageReply (uniformPage "0x0"); pageReply []] in
  fst (fetchPools gateway exampleUrl initialCursor 7 quiet) =
    Returned (uniformPage "0x0") /\
  length (uniformPage "0x0") = 1000%nat /\
  strLt (nextCursor (uniformPage "0x0")) initialCursor /\
  paginate gateway 2 exampleUrl 7 initialCursor "" [] quiet =
    (Returned (uniformPage "0x0"),
     mkWorld [poolsRequest exampleUrl initialCursor 7;
              poolsRequest exampleUrl "0x0" 7] []).
Proof.
  cbv zeta. repeat split; vm_compute; reflexivity.
Qed.

(** C2, amended. After a full page the loop goes on exactly when the
    identifier of the last record is not empty and is neither the current
    cursor nor the cursor before it, and it aborts with the stall error
    otherwise; a cursor that goes back to any other value is not noticed.
    When the page honours the bound of its query (every identifier above the
    cursor) and the cursor is above the one before it, the loop goes on and
    the new cursor is strictly above the current one. *)
Theorem cursor_advances_or_aborts (gateway : Gateway) (subgraphUrl : string)
    (blockNumber : Z) (fuel : nat) (cursor prev : string)
    (allPools page : list LiquidityPool.t) (w : World) :
  fst (fetchPools gateway subgraphUrl cursor blockNumber w) = Returned page ->
  length page = 1000%nat ->
  let w' := snd (fetchPools gateway subgraphUrl cursor blockNumber w) in
  let continued :=
    paginate gateway fuel subgraphUrl blockNumber (nextCursor page) cursor
      (allPools ++ page) w' in
  let run :=
    paginate gateway (S fuel) subgraphUrl blockNumber cursor prev allPools w in
  ((nextCursor page = "" \/ nextCursor page = cursor \/ nextCursor page = prev) /\
   run = (Thrown CursorDidNotAdvance, w')
   \/
   (nextCursor page <> "" /\ nextCursor page <> cursor /\
    nextCursor page <> prev) /\
   run = continued) /\
  (aboveCursor cursor page -> strLt prev cursor ->
   strLt cursor (nextCursor page) /\ run = continued).
Proof.
  intros Hpage Hfull w' continued run.
  assert (Hfetch : fetchPools gateway subgraphUrl cursor blockNumber w =
                   (Returned page, w'))
    by (rewrite <- Hpage; apply surjective_pairing).
  assert (Hgo : nextCursor page <> "" -> nextCursor page <> cursor ->
                nextCursor page <> prev -> run = continued)
    by (intros; now apply paginate_advance).
  assert (Hstop : nextCursor page = "" \/ nextCursor page = cursor \/
                  nextCursor page = prev ->
                  run = (Thrown CursorDidNotAdvance, w'))
    by (intros; now apply (paginate_stall _ _ _ _ _ _ _ page)).
  split.
  - destruct (decide (nextCursor page = "")) as [Hempty|Hne];
      [left; auto|].
    destruct (decide (nextCursor page = cursor)) as [Hsame|Hcur];
      [left; auto|].
    destruct (decide (nextCursor page = prev)) as [Hback|Hprev];
      [left; auto|].
    right. auto.
  - intros Habove Hprev.
    assert (Hnext : strLt cursor (nextCursor page)).
    { apply nextCursor_above; [exact Habove|].
      intros ->. discriminate Hfull. }
    split; [exact Hnext|]. apply Hgo.
    + exact (strLt_nonempty _ _ Hnext).
    + exact (strLt_neq _ _ Hnext).
    + apply (strLt_neq prev). exact (strLt_trans _ _ _ Hprev Hnext).
Qed.

Lemma cursor_advances_or_aborts_witness :
  strLt initialCursor (nextCursor (uniformPage "0x01")) /\
  paginate (scripted [pageReply (uniformPage "0x01"); pageReply []]) 2
    exampleUrl 7 initialCursor "" [] quiet =
  paginate (scripted [pageReply (uniformPage "0x01"); pageReply []]) 1
    exampleUrl 7 (nextCursor (uniformPage "0x01")) initialCursor
    ([] ++ uniformPage "0x01")
    (snd (fetchPools (scripted [pageReply (uniformPage "0x01"); pageReply []])
            exampleUrl initialCursor 7 quiet)).
Proof.
  apply (cursor_advances_or_aborts
           (scripted [pageReply (uniformPage "0x01"); pageReply []])
           exampleUrl 7 1 initialCursor "" [] (uniformPage "0x01") quiet).
  - vm_compute. reflexivity.
  - vm_compute. reflexivity.
  - apply Forall_forall. intros pool Hin. unfold uniformPage in Hin.
    apply list_elem_of_In, repeat_spec in Hin. subst pool. reflexivity.
  - reflexivity.
Defined.

(** ** The entry point *)

Lemma supported_existsb (n : Z) :
  existsb (Z.eqb n) supportedChains = true <-> In n supportedChains.
Proof.
  rewrite existsb_exists. split.
  - intros (m & Hin & ->%Z.eqb_eq). exact Hin.
  - intros Hin. exists n. split; [exact Hin | apply Z.eqb_refl].
Qed.


(** [returnTags] past the tests on the chain: what is left depends on the
    chain only through its number, up to the chain echoed in an error. *)
Lemma returnTags_accepted (gateway : Gateway) (fuel : nat)
    (chainId apiKey : string) (w : World) :
  Js.testDecimal (Js.trim chainId) = true ->
  In (Js.Number (Js.trim chainId)) supportedChains ->
  returnTags gateway fuel chainId apiKey w =
  if negb (apiKeyGiven apiKey) then (Thrown MissingApiKey, w)
  else
    match resolveSubgraphUrl (Js.toString (Js.Number (Js.trim chainId))) apiKey with
    | None => (Thrown (SubgraphUrlNotConfigured chainId), w)
    | Some subgraphUrl =>
        if String.eqb subgraphUrl "" || Js.includes "PLACEHOLDER" subgraphUrl
        then (Thrown (SubgraphUrlNotConfigured chainId), w)
        else
          (let! blockNumber := fetchIndexedBlockNumber gateway subgraphUrl in
           let! allPools :=
             paginate gateway fuel subgraphUrl blockNumber initialCursor "" [] in
           ret (transformPoolsToTags
                  (Js.toString (Js.Number (Js.trim chainId))) allPools)) w
    end.
Proof.
  intros Hdigits Hchain. apply supported_existsb in Hchain.
  unfold returnTags, apiKeyGiven. rewrite Hdigits, Hchain. cbn [negb].
  rewrite negb_involutive.
  destruct (String.eqb apiKey "" || _); [reflexivity|].
  destruct (resolveSubgraphUrl _ apiKey) as [subgraphUrl|]; [|reflexivity].
  now destruct (String.eqb subgraphUrl "" || _).
Qed.

(** C6, as the specification has it, fails: [" 137 "] is not made of
    digits only and ["0137"] is none of the four supported numerals, and
    [returnTags] takes both, queries the gateway and returns. *)
Lemma chain_id_counterexample :
  let gateway := scripted [metaReply 7; pageReply [poolA; poolB]] in
  Js.testDecimal " 137 " = false /\
  ~ In "0137" ["56"; "137"; "250"; "1285"] /\
  (exists tags w',
      returnTags gateway 1 " 137 " "key" quiet = (Returned tags, w') /\
      length (requests w') = 2%nat) /\
  (exists tags w',
      returnTags gateway 1 "0137" "key" quiet = (Returned tags, w') /\
      length (requests w') = 2%nat).
Proof.
  cbv zeta. split; [reflexivity|]. split.
  - simpl. intros [H|[H|[H|[H|[]]]]]; discriminate H.
  - split; eexists; eexists; (split; [vm_compute; reflexivity | reflexivity]).
Qed.

(** C6, amended. When the chain identifier, trimmed, is not made of one or
    more decimal digits only, or does not denote one of 56, 137, 250 and
    1285, [returnTags] throws the unsupported-chain error, a
    [ValidationError] whose message holds the identifier as it was given,
    and it sends no request. *)
Theorem unsupported_chain_rejected (gateway : Gateway) (fuel : nat)
    (chainId apiKey : string) (w : World) :
  Js.testDecimal (Js.trim chainId) = false \/
  ~ In (Js.Number (Js.trim chainId)) supportedChains ->
  returnTags gateway fuel chainId apiKey w =
    (Thrown (UnsupportedChainId chainId), w) /\
  errorKind (UnsupportedChainId chainId) = ValidationError /\
  errorMessage (UnsupportedChainId chainId) =
    "Unsupported Chain ID: " +:+ chainId +:+
    ". Only 56 (BNB Chain), 137 (Polygon), 250 (Fantom), and 1285 (Moonriver) are currently supported in this module." /\
  requests (snd (returnTags gateway fuel chainId apiKey w)) = requests w.
Proof.
  intros Hbad.
  assert (Hrun : returnTags gateway fuel chainId apiKey w =
                 (Thrown (UnsupportedChainId chainId), w)).
  { unfold returnTags.
    destruct (Js.testDecimal (Js.trim chainId)) eqn:Hdigits; [|reflexivity].
    cbn [negb].
    destruct (existsb _ supportedChains) eqn:Hchain; [|reflexivity].
    apply supported_existsb in Hchain.
    destruct Hbad as [Hbad|Hbad]; [discriminate | contradiction]. }
  rewrite Hrun. repeat split; reflexivity.
Qed.

Lemma unsupported_chain_rejected_witness :
  returnTags (scripted [metaReply 7; pageReply [poolA; poolB]]) 1 "9999" "key"
    quiet = (Thrown (UnsupportedChainId "9999"), quiet) /\
  errorKind (UnsupportedChainId "9999") = ValidationError /\
  errorMessage (UnsupportedChainId "9999") =
    "Unsupported Chain ID: " +:+ "9999" +:+
    ". Only 56 (BNB Chain), 137 (Polygon), 250 (Fantom), and 1285 (Moonriver) are currently supported in this module." /\
  requests (snd (returnTags (scripted [metaReply 7; pageReply [poolA; poolB]])
                   1 "9999" "key" quiet)) = requests quiet.
Proof.
  apply (unsupported_chain_rejected
           (scripted [metaReply 7; pageReply [poolA; poolB]]) 1 "9999" "key"
           quiet).
  right. simpl. intros [H|[H|[H|[H|[]]]]]; discriminate H.
Defined.

(** [returnTags] on an accepted chain with a usable address, when the
    gateway reports a block and the loop returns. *)
Lemma returnTags_run (gateway : Gateway) (fuel : nat)
    (chainId apiKey subgraphUrl : string) (blockNumber : Z) (w : World) :
  Js.testDecimal (Js.trim chainId) = true ->
  In (Js.Number (Js.trim chainId)) supportedChains ->
  apiKeyGiven apiKey = true ->
  resolveSubgraphUrl (Js.toString (Js.Number (Js.trim chainId))) apiKey =
    Some subgraphUrl ->
  String.eqb subgraphUrl "" || Js.includes "PLACEHOLDER" subgraphUrl = false ->
  gateway (requests w) (metaRequest subgraphUrl) = metaReply blockNumber ->
  returnTags gateway fuel chainId apiKey w =
  (let! allPools :=
     paginate gateway fuel subgraphUrl blockNumber initialCursor "" [] in
   ret (transformPoolsToTags (Js.toString (Js.Number (Js.trim chainId)))
          allPools))
    (mkWorld (requests w ++ [metaRequest subgraphUrl]) (console w)).
Proof.
  intros Hdigits Hchain Hkey Hurl Husable Hmeta.
  rewrite (returnTags_accepted _ _ _ _ _ Hdigits Hchain), Hkey, Hurl, Husable.
  cbn [negb]. unfold bind at 1, fetchIndexedBlockNumber at 1, bind at 1, fetch.
  fold (metaRequest subgraphUrl). rewrite Hmeta. reflexivity.
Qed.

(** C8. On chain ["137"], with a credential that yields a usable address,
    when the gateway reports a block and then serves the single page of the
    record A, whose LP token is [{id: "0xaaa", symbol: "SLP", name: "Sushi LP
    Token"}], and the record B, which has no LP token, [returnTags] returns
    exactly the one tag of the specification. *)
Theorem end_to_end_example (gateway : Gateway) (fuel : nat)
    (apiKey subgraphUrl : string) (blockNumber : Z) (w : World)
    (A B : LiquidityPool.t) :
  apiKeyGiven apiKey = true ->
  resolveSubgraphUrl "137" apiKey = Some subgraphUrl ->
  String.eqb subgraphUrl "" || Js.includes "PLACEHOLDER" subgraphUrl = false ->
  gateway (requests w) (metaRequest subgraphUrl) = metaReply blockNumber ->
  gateway (requests w ++ [metaRequest subgraphUrl])
    (poolsRequest subgraphUrl initialCursor blockNumber) = pageReply [A; B] ->
  LiquidityPool.outputToken A =
    Some (Token.mk "0xaaa" (Some "SLP") (Some "Sushi LP Token")) ->
  LiquidityPool.outputToken B = None ->
  (0 < fuel)%nat ->
  fst (returnTags gateway fuel "137" apiKey w) =
  Returned
    [ {| Contract_Address := "eip155:137:0xaaa";
         Public_Name_Tag := "SLP Pool";
         Project_Name := "Sushi";
         UI_Website_Link := "https://www.sushi.com/";
         Public_Note := "Sushi's SLP (Sushi LP Token) pool contract." |} ].
Proof.
  intros Hkey Hurl Husable Hmeta Hpage HA HB Hfuel.
  rewrite (returnTags_run gateway fuel "137" apiKey subgraphUrl blockNumber w)
    by (try assumption; try reflexivity; simpl; auto).
  destruct fuel as [|fuel]; [lia|].
  unfold bind at 1.
  rewrite (paginate_final gateway subgraphUrl blockNumber fuel initialCursor ""
             [] [A; B] _
             (mkWorld (requests w ++ [metaRequest subgraphUrl] ++
                       [poolsRequest subgraphUrl initialCursor blockNumber])
                (console w))).
  - unfold ret. cbn [fst app].
    unfold transformPoolsToTags. cbn [transformLoop].
    rewrite (transformStep_eq _ A).
    assert (HfreshA : freshToken A ∅ =
                      Some (Token.mk "0xaaa" (Some "SLP") (Some "Sushi LP Token"))).
    { apply freshToken_spec. split; [exact HA|].
      split; [discriminate | apply not_elem_of_empty]. }
    rewrite HfreshA, transformStep_eq. unfold freshToken at 1. rewrite HB.
    reflexivity.
  - rewrite (fetchPools_fulfilled gateway subgraphUrl initialCursor blockNumber
               (mkWorld (requests w ++ [metaRequest subgraphUrl]) (console w))
               _ _ Hpage eq_refl eq_refl eq_refl).
    cbn. now rewrite <- app_assoc.
  - simpl. lia.
Qed.

Lemma end_to_end_example_witness :
  fst (returnTags (scripted [metaReply 7; pageReply [poolA; poolB]]) 1 "137"
         "key" quiet) =
  Returned
    [ {| Contract_Address := "eip155:137:0xaaa";
         Public_Name_Tag := "SLP Pool";
         Project_Name := "Sushi";
         UI_Website_Link := "https://www.sushi.com/";
         Public_Note := "Sushi's SLP (Sushi LP Token) pool contract." |} ].
Proof.
  apply (end_to_end_example
           (scripted [metaReply 7; pageReply [poolA; poolB]]) 1 "key"
           "https://gateway.thegraph.com/api/key/deployments/id/Qmc3gbKAd1eemQbaTvY93S2FpuPEipGaVKCQ97pBkXgtyN"
           7 quiet poolA poolB);
    try reflexivity.
  lia.
Defined.

(** ** Normal form of the chain identifier *)








(** The numeral of 137 with a leading zero, and between blanks. *)
Example leading_zero_accepted :
  fst (returnTags (scripted [metaReply 7; pageReply [poolA; poolB]]) 1 "0137"
         "key" quiet) =
  Returned
    [ mkTag "eip155:137:0xaaa" "SLP Pool" "Sushi" "https://www.sushi.com/"
        "Sushi's SLP (Sushi LP Token) pool contract." ].
Proof. vm_compute. reflexivity. Qed.

Example padded_accepted :
  fst (returnTags (scripted [metaReply 7; pageReply [poolA; poolB]]) 1 " 137 "
         "key" quiet) =
  Returned
    [ mkTag "eip155:137:0xaaa" "SLP Pool" "Sushi" "https://www.sushi.com/"
        "Sushi's SLP (Sushi LP Token) pool contract." ].
Proof. vm_compute. reflexivity. Qed.

(** ** The zero address as the first bound *)

Lemma ltb_strLt (a b : string) : String.ltb a b = true <-> strLt a b.
Proof.
  unfold String.ltb, strLt.
  destruct (String.compare a b); split; congruence.
Qed.

Lemma indexer_honoursIdGt (blockNumber : Z) (table : list LiquidityPool.t) :
  honoursIdGt (indexer blockNumber table).
Proof.
  intros sent subgraphUrl cursor block response result pools Hreply Hjson Hdata.
  unfold indexer, pageReply in Hreply. cbn in Hreply.
  injection Hreply as <-. cbn in Hjson. injection Hjson as <-.
  cbn in Hdata. injection Hdata as <-.
  apply Forall_take, Forall_forall. intros pool Hin.
  apply list_elem_of_In, filter_In in Hin as [_ Hlt].
  now apply ltb_strLt.
Qed.

Section ZeroAddress.

Variable gateway : Gateway.
Hypothesis Hhonours : honoursIdGt gateway.
Variable subgraphUrl : string.
Variable blockNumber : Z.

Lemma fetchPools_above (cursor : string) (w : World)
    (page : list LiquidityPool.t) :
  fst (fetchPools gateway subgraphUrl cursor blockNumber w) = Returned page ->
  aboveCursor cursor page.
Proof.
  unfold fetchPools, bind, fetch.
  destruct (gateway _ _) as [response| |reason] eqn:Hreply; cbn;
    [|discriminate..].
  destruct (ok response); cbn; [|discriminate].
  destruct (body response) as [| |result] eqn:Hjson; cbn; [discriminate..|].
  apply json_document in Hjson.
  destruct (errors result) as [errs|]; cbn.
  - rewrite forEach_console_error. discriminate.
  - intros [= <-].
    destruct (data result ≫= liquidityPools) as [pools|] eqn:Hdata;
      [|constructor].
    exact (Hhonours _ _ _ _ _ _ _ Hreply Hjson Hdata).
Qed.

Lemma aboveCursor_fromZero (cursor : string) (page : list LiquidityPool.t) :
  fromZero cursor -> aboveCursor cursor page -> aboveCursor initialCursor page.
Proof.
  intros [->|Hlt] Habove; [exact Habove|].
  eapply Forall_impl; [exact Habove|].
  intros pool Hpool. exact (strLt_trans _ _ _ Hlt Hpool).
Qed.

Lemma fromZero_above (cursor next : string) :
  fromZero cursor -> strLt cursor next -> fromZero next.
Proof.
  intros [->|Hlt] Hnext; right; [exact Hnext|].
  exact (strLt_trans _ _ _ Hlt Hnext).
Qed.

(** The loop only sends pools queries whose cursors the zero address
    bounds, the first with the cursor it was entered with, and what it
    returns lies above the zero address. *)
Lemma paginate_fromZero (fuel : nat) :
  forall (cursor prev : string) (allPools : list LiquidityPool.t) (w : World),
    fromZero cursor ->
    aboveCursor initialCursor allPools ->
    (exists cursors,
        requests (snd (paginate gateway fuel subgraphUrl blockNumber cursor
                         prev allPools w)) =
        requests w ++
        map (fun c => poolsRequest subgraphUrl c blockNumber) cursors /\
        Forall fromZero cursors /\
        ((0 < fuel)%nat -> head cursors = Some cursor)) /\
    (forall pools,
        fst (paginate gateway fuel subgraphUrl blockNumber cursor prev
               allPools w) = Returned pools ->
        aboveCursor initialCursor pools).
Proof.
  induction fuel as [|fuel IH]; intros cursor prev allPools w Hcursor Hacc.
  - split; [|discriminate]. exists []. cbn. rewrite app_nil_r.
    split; [reflexivity|]. split; [constructor | lia].
  - pose proof (fetchPools_sends gateway subgraphUrl blockNumber cursor w)
      as [Hsent Hends].
    pose proof (fetchPools_above cursor w) as Habove.
    destruct (fetchPools gateway subgraphUrl cursor blockNumber w)
      as [[page|e|] w'] eqn:Hfetch; cbn [fst snd] in Hsent, Hends, Habove;
      [| |contradiction].
    + specialize (Habove page eq_refl).
      assert (Hacc' : aboveCursor initialCursor (allPools ++ page)).
      { apply Forall_app. split; [exact Hacc|].
        exact (aboveCursor_fromZero _ _ Hcursor Habove). }
      rewrite (paginate_round _ _ _ _ _ _ _ _ _ _ Hfetch).
      destruct (length page =? 1000)%nat eqn:Hfull.
      * destruct (_ || _).
        -- split; [|discriminate]. exists [cursor]. cbn [snd map head].
           split; [exact Hsent|]. split; [|reflexivity].
           constructor; [exact Hcursor | constructor].
        -- assert (Hnext : fromZero (nextCursor page)).
           { apply (fromZero_above cursor); [exact Hcursor|].
             apply (nextCursor_above cursor page Habove).
             intros ->. discriminate Hfull. }
           destruct (IH (nextCursor page) cursor (allPools ++ page) w'
                       Hnext Hacc') as [(cursors & Hlog & Hall & _) Hpools].
           split; [|exact Hpools].
           exists (cursor :: cursors). cbn [map head].
           rewrite Hlog, Hsent, <- app_assoc.
           split; [reflexivity|]. split; [|reflexivity].
           constructor; assumption.
      * split.
        -- exists [cursor]. cbn [snd map head].
           split; [exact Hsent|]. split; [|reflexivity].
           constructor; [exact Hcursor | constructor].
        -- intros pools [= <-]. exact Hacc'.
    + rewrite (paginate_fetch_thrown _ _ _ _ _ _ _ _ _ _ Hfetch).
      split; [|discriminate]. exists [cursor]. cbn [snd map head].
      split; [exact Hsent|]. split; [|reflexivity].
      constructor; [exact Hcursor | constructor].
Qed.

End ZeroAddress.

(** With a gateway that honours [id_gt] the full pages end in fresh
    cursors by themselves, and the loop returns what it is served. *)
Lemma honest_pages_advance (gateway : Gateway) (subgraphUrl : string)
    (blockNumber : Z) (final : list LiquidityPool.t) :
  honoursIdGt gateway ->
  forall (pages : list (list LiquidityPool.t)) (cursor prev : string)
         (w : World),
    served gateway subgraphUrl blockNumber w cursor pages final ->
    Forall (fun page => length page = 1000%nat) pages ->
    strLt prev cursor ->
    advancing cursor prev pages.
Proof.
  intros Hhonours. induction pages as [|page rest IH];
    intros cursor prev w Hserved Hfull Hprev; [exact I|].
  cbn [served] in Hserved. destruct Hserved as [Hpage Hrest].
  apply Forall_cons in Hfull as [Hlen Hfull].
  assert (Hnext : strLt cursor (nextCursor page)).
  { apply nextCursor_above.
    - exact (fetchPools_above gateway Hhonours _ _ _ _ _ Hpage).
    - intros ->. discriminate Hlen. }
  cbn [advancing]. split; [exact (strLt_nonempty _ _ Hnext)|].
  split; [exact (strLt_neq _ _ Hnext)|].
  split; [exact (strLt_neq _ _ (strLt_trans _ _ _ Hprev Hnext))|].
  exact (IH _ _ _ Hrest Hfull Hnext).
Qed.

Lemma paginate_concat_honest (gateway : Gateway) (subgraphUrl : string)
    (blockNumber : Z) (w : World) (pages : list (list LiquidityPool.t))
    (final : list LiquidityPool.t) (fuel : nat) :
  honoursIdGt gateway ->
  served gateway subgraphUrl blockNumber w initialCursor pages final ->
  Forall (fun page => length page = 1000%nat) pages ->
  (length final < 1000)%nat ->
  (length pages < fuel)%nat ->
  fst (paginate gateway fuel subgraphUrl blockNumber initialCursor "" [] w) =
  Returned (concat (pages ++ [final])).
Proof.
  intros Hhonours Hserved Hfull Hshort Hfuel.
  rewrite (paginate_concat gateway subgraphUrl blockNumber pages final
             initialCursor "" [] w Hserved Hfull Hshort); [reflexivity| |exact Hfuel].
  apply (honest_pages_advance gateway subgraphUrl blockNumber final Hhonours
           pages initialCursor "" w Hserved Hfull).
  reflexivity.
Qed.

Lemma fetchIndexedBlockNumber_sends (gateway : Gateway) (subgraphUrl : string)
    (w : World) :
  requests (snd (fetchIndexedBlockNumber gateway subgraphUrl w)) =
  requests w ++ [metaRequest subgraphUrl].
Proof.
  unfold fetchIndexedBlockNumber, bind, fetch, metaRequest.
  destruct (gateway _ _) as [resp| |reason]; cbn; [|reflexivity..].
  destruct (ok resp); cbn; [|reflexivity].
  destruct (body resp) as [| |document]; cbn; [reflexivity..|].
  now destruct (data document ≫= meta_block_number).
Qed.

(** What happened when [returnTags] returns. *)
Lemma returnTags_returned (gateway : Gateway) (fuel : nat)
    (chainId apiKey : string) (w : World) (tags : list ContractTag) :
  fst (returnTags gateway fuel chainId apiKey w) = Returned tags ->
  exists subgraphUrl blockNumber w1 allPools w2,
    resolveSubgraphUrl (Js.toString (Js.Number (Js.trim chainId))) apiKey =
      Some subgraphUrl /\
    fetchIndexedBlockNumber gateway subgraphUrl w = (Returned blockNumber, w1) /\
    paginate gateway fuel subgraphUrl blockNumber initialCursor "" [] w1 =
      (Returned allPools, w2) /\
    tags = transformPoolsToTags (Js.toString (Js.Number (Js.trim chainId)))
             allPools /\
    snd (returnTags gateway fuel chainId apiKey w) = w2.
Proof.
  unfold returnTags.
  destruct (negb (Js.testDecimal _)); [discriminate|].
  destruct (negb (existsb _ _)); [discriminate|].
  destruct (String.eqb apiKey "" || _); [discriminate|].
  destruct (resolveSubgraphUrl _ apiKey) as [subgraphUrl|] eqn:Hurl;
    [|discriminate].
  destruct (String.eqb subgraphUrl "" || _); [discriminate|].
  unfold bind.
  destruct (fetchIndexedBlockNumber gateway subgraphUrl w)
    as [[blockNumber|e|] w1] eqn:Hmeta; [|discriminate..].
  destruct (paginate gateway fuel subgraphUrl blockNumber initialCursor "" [] w1)
    as [[allPools|e|] w2] eqn:Hloop; [|discriminate..].
  cbn. intros [= <-].
  exists subgraphUrl, blockNumber, w1, allPools, w2. auto.
Qed.

Lemma returnTags_sent (gateway : Gateway) (fuel : nat)
    (chainId apiKey : string) (w : World) :
  honoursIdGt gateway ->
  exists sent,
    requests (snd (returnTags gateway fuel chainId apiKey w)) =
      requests w ++ sent /\
    zeroBoundedLog sent.
Proof.
  intros Hhonours.
  assert (Hnone : forall e : Error,
             exists sent,
               requests (snd (@Thrown (list ContractTag) e, w)) =
                 requests w ++ sent /\ zeroBoundedLog sent).
  { intros e. exists []. cbn. rewrite app_nil_r. split; [reflexivity | now left]. }
  unfold returnTags.
  destruct (negb (Js.testDecimal _)); [apply Hnone|].
  destruct (negb (existsb _ _)); [apply Hnone|].
  destruct (String.eqb apiKey "" || _); [apply Hnone|].
  destruct (resolveSubgraphUrl _ apiKey) as [subgraphUrl|]; [|apply Hnone].
  destruct (String.eqb subgraphUrl "" || _); [apply Hnone|].
  pose proof (fetchIndexedBlockNumber_sends gateway subgraphUrl w) as Hsent.
  unfold bind.
  destruct (fetchIndexedBlockNumber gateway subgraphUrl w)
    as [[blockNumber|e|] w1] eqn:Hmeta; cbn [snd] in Hsent;
    [|exists [metaRequest subgraphUrl]; split;
      [exact Hsent | right; exists subgraphUrl; now left]..].
  destruct (paginate_fromZero gateway Hhonours subgraphUrl blockNumber fuel
              initialCursor "" [] w1) as [(cursors & Hlog & Hall & Hhead) _];
    [now left | constructor |].
  assert (Hrun : requests
            (snd (match paginate gateway fuel subgraphUrl blockNumber
                          initialCursor "" [] w1 with
                  | (Returned a, w') =>
                      ret (transformPoolsToTags
                             (Js.toString (Js.Number (Js.trim chainId))) a) w'
                  | (Thrown e, w') => (Thrown e, w')
                  | (Unfinished, w') => (Unfinished, w')
                  end)) =
          requests (snd (paginate gateway fuel subgraphUrl blockNumber
                           initialCursor "" [] w1)))
    by now destruct (paginate gateway fuel subgraphUrl blockNumber
                       initialCursor "" [] w1) as [[?|?|] ?].
  rewrite Hrun, Hlog, Hsent, <- app_assoc.
  exists ([metaRequest subgraphUrl] ++
          map (fun c => poolsRequest subgraphUrl c blockNumber) cursors).
  split; [reflexivity|]. right. exists subgraphUrl.
  destruct cursors as [|cursor rest]; [now left|]. right.
  exists blockNumber, rest.
  assert (Hfirst : cursor = initialCursor).
  { destruct fuel as [|fuel].
    - cbn in Hlog. rewrite <- (app_nil_r (requests w1)) in Hlog at 1.
      apply app_inv_head in Hlog. discriminate Hlog.
    - specialize (Hhead ltac:(lia)). now injection Hhead. }
  subst cursor. split; [reflexivity|]. now apply Forall_cons in Hall as [_ ?].
Qed.

(** The filter is the gateway's: [returnTags] takes a page as it comes, so
    a gateway that sent the pool at the zero address all the same would have
    it accumulated and its LP token tagged. *)
Example zero_address_left_to_gateway :
  fst (returnTags (scripted [metaReply 7; pageReply [zeroPool; poolA]]) 1
         "137" "key" quiet) =
  Returned
    [ mkTag "eip155:137:0xccc" "ZERO Pool" "Sushi" "https://www.sushi.com/"
        "Sushi's ZERO () pool contract.";
      mkTag "eip155:137:0xaaa" "SLP Pool" "Sushi" "https://www.sushi.com/"
        "Sushi's SLP (Sushi LP Token) pool contract." ].
Proof. vm_compute. reflexivity. Qed.

(** C9. The first cursor is the zero address and every pools query carries
    its cursor in [lastId], which the query uses under [id_gt].  So, with a
    gateway that honours [id_gt]: the pools queries that [returnTags] sends
    have the zero address, first, and identifiers above it as cursors; and
    when it returns, the records that the loop accumulated, from which the
    tags are made, all have an identifier strictly above the zero address,
    hence another one, and every tag returned stems from such a record. *)
Theorem zero_address_excluded (gateway : Gateway) (fuel : nat)
    (chainId apiKey : string) (w : World) :
  honoursIdGt gateway ->
  let run := returnTags gateway fuel chainId apiKey w in
  let chainKey := Js.toString (Js.Number (Js.trim chainId)) in
  initialCursor = "0x0000000000000000000000000000000000000000" /\
  Js.includes "where: { id_gt: $lastId }" GET_POOLS_QUERY = true /\
  (exists sent,
      requests (snd run) = requests w ++ sent /\ zeroBoundedLog sent) /\
  (forall tags,
      fst run = Returned tags ->
      exists subgraphUrl blockNumber w1 allPools w2,
        resolveSubgraphUrl chainKey apiKey = Some subgraphUrl /\
        fetchIndexedBlockNumber gateway subgraphUrl w =
          (Returned blockNumber, w1) /\
        paginate gateway fuel subgraphUrl blockNumber initialCursor "" [] w1 =
          (Returned allPools, w2) /\
        tags = transformPoolsToTags chainKey allPools /\
        Forall (fun pool => strLt initialCursor (LiquidityPool.id pool) /\
                            LiquidityPool.id pool <> initialCursor) allPools /\
        forall t, t ∈ tags ->
          exists pool lpToken,
            pool ∈ allPools /\ LiquidityPool.id pool <> initialCursor /\
            LiquidityPool.outputToken pool = Some lpToken /\
            Contract_Address t = tagAddress chainKey (Token.id lpToken)).
Proof.
  intros Hhonours run chainKey.
  split; [reflexivity|]. split; [vm_compute; reflexivity|].
  split; [exact (returnTags_sent gateway fuel chainId apiKey w Hhonours)|].
  intros tags Hreturned.
  apply returnTags_returned in Hreturned
    as (subgraphUrl & blockNumber & w1 & allPools & w2 &
        Hurl & Hmeta & Hloop & -> & _).
  destruct (paginate_fromZero gateway Hhonours subgraphUrl blockNumber fuel
              initialCursor "" [] w1) as [_ Hpools];
    [now left | constructor |].
  rewrite Hloop in Hpools. cbn [fst] in Hpools.
  specialize (Hpools allPools eq_refl).
  assert (Hother : Forall (fun pool =>
              strLt initialCursor (LiquidityPool.id pool) /\
              LiquidityPool.id pool <> initialCursor) allPools).
  { eapply Forall_impl; [exact Hpools|].
    intros pool Hlt. split; [exact Hlt | exact (strLt_neq _ _ Hlt)]. }
  exists subgraphUrl, blockNumber, w1, allPools, w2.
  split; [exact Hurl|]. split; [exact Hmeta|]. split; [exact Hloop|].
  split; [reflexivity|]. split; [exact Hother|].
  intros t Ht.
  apply transformLoop_emitted in Ht as (pool & lpToken & Hin & Hout & _ & Haddr).
  exists pool, lpToken. split; [exact Hin|]. split; [|auto].
  exact (proj2 (proj1 (Forall_forall _ _) Hother pool Hin)).
Qed.

Lemma zero_address_excluded_witness :
  exists subgraphUrl blockNumber w1 allPools w2,
    resolveSubgraphUrl (Js.toString (Js.Number (Js.trim "137"))) "key" =
      Some subgraphUrl /\
    fetchIndexedBlockNumber (indexer 7 [zeroPool; poolA; poolB]) subgraphUrl
      quiet = (Returned blockNumber, w1) /\
    paginate (indexer 7 [zeroPool; poolA; poolB]) 1 subgraphUrl blockNumber
      initialCursor "" [] w1 = (Returned allPools, w2) /\
    [ mkTag "eip155:137:0xaaa" "SLP Pool" "Sushi" "https://www.sushi.com/"
        "Sushi's SLP (Sushi LP Token) pool contract." ] =
      transformPoolsToTags (Js.toString (Js.Number (Js.trim "137"))) allPools /\
    Forall (fun pool => strLt initialCursor (LiquidityPool.id pool) /\
                        LiquidityPool.id pool <> initialCursor) allPools /\
    forall t,
      t ∈ [ mkTag "eip155:137:0xaaa" "SLP Pool" "Sushi"
              "https://www.sushi.com/"
              "Sushi's SLP (Sushi LP Token) pool contract." ] ->
      exists pool lpToken,
        pool ∈ allPools /\ LiquidityPool.id pool <> initialCursor /\
        LiquidityPool.outputToken pool = Some lpToken /\
        Contract_Address t =
          tagAddress (Js.toString (Js.Number (Js.trim "137")))
            (Token.id lpToken).
Proof.
  apply (zero_address_excluded (indexer 7 [zeroPool; poolA; poolB]) 1 "137"
           "key" quiet).
  - apply indexer_honoursIdGt.
  - vm_compute. reflexivity.
Defined.

(** * Further properties *)

(** ** What the service sends *)

(** The pools queries of the loop: none without fuel, else the one with the
    cursor of entry and then fresh cursors, all to the same address and with
    the same block. *)
Lemma paginate_log (gateway : Gateway) (subgraphUrl : string)
    (blockNumber : Z) (fuel : nat) :
  forall (cursor prev : string) (allPools : list LiquidityPool.t) (w : World),
    exists cursors,
      requests (snd (paginate gateway fuel subgraphUrl blockNumber cursor prev
                       allPools w)) =
      requests w ++ map (fun c => poolsRequest subgraphUrl c blockNumber) cursors /\
      match cursors with
      | [] => fuel = 0%nat
      | first :: later => first = cursor /\ fresh prev cursor later
      end.
Proof.
  induction fuel as [|fuel IH]; intros cursor prev allPools w.
  - exists []. cbn. now rewrite app_nil_r.
  - pose proof (fetchPools_sends gateway subgraphUrl blockNumber cursor w)
      as [Hsent Hends].
    destruct (fetchPools gateway subgraphUrl cursor blockNumber w)
      as [[page|e|] w'] eqn:Hfetch; cbn [fst snd] in Hsent, Hends;
      [| |contradiction].
    + rewrite (paginate_round _ _ _ _ _ _ _ _ _ _ Hfetch).
      destruct (length page =? 1000)%nat;
        [|exists [cursor]; cbn; split; [exact Hsent | split; [reflexivity | exact I]]].
      destruct (String.eqb_spec (nextCursor page) "") as [|Hne];
        [exists [cursor]; cbn; split; [exact Hsent | split; [reflexivity | exact I]]|].
      destruct (String.eqb_spec (nextCursor page) cursor) as [|Hcur];
        [exists [cursor]; cbn; split; [exact Hsent | split; [reflexivity | exact I]]|].
      destruct (String.eqb_spec (nextCursor page) prev) as [|Hprev];
        [exists [cursor]; cbn; split; [exact Hsent | split; [reflexivity | exact I]]|].
      cbn [orb].
      destruct (IH (nextCursor page) cursor (allPools ++ page) w')
        as (cursors & Hlog & Hshape).
      exists (cursor :: cursors). cbn [map].
      rewrite Hlog, Hsent, <- app_assoc. split; [reflexivity|].
      split; [reflexivity|].
      destruct cursors as [|first later]; [exact I|].
      destruct Hshape as [-> Hfresh]. cbn [fresh]. auto.
    + rewrite (paginate_fetch_thrown _ _ _ _ _ _ _ _ _ _ Hfetch).
      exists [cursor]. cbn. split; [exact Hsent | split; [reflexivity | exact I]].
Qed.

(** [returnTags] either stops at one of its tests, before any request, or
    goes on to the block query with the address of the chain. *)
Lemma returnTags_cases (gateway : Gateway) (fuel : nat)
    (chainId apiKey : string) (w : World) :
  (exists e,
      returnTags gateway fuel chainId apiKey w = (Thrown e, w) /\
      (errorKind e = ValidationError \/ errorKind e = ConfigurationError)) \/
  (exists subgraphUrl,
      Js.testDecimal (Js.trim chainId) = true /\
      In (Js.Number (Js.trim chainId)) supportedChains /\
      apiKeyGiven apiKey = true /\
      resolveSubgraphUrl (Js.toString (Js.Number (Js.trim chainId))) apiKey =
        Some subgraphUrl /\
      String.eqb subgraphUrl "" || Js.includes "PLACEHOLDER" subgraphUrl = false /\
      returnTags gateway fuel chainId apiKey w =
      (let! blockNumber := fetchIndexedBlockNumber gateway subgraphUrl in
       let! allPools :=
         paginate gateway fuel subgraphUrl blockNumber initialCursor "" [] in
       ret (transformPoolsToTags (Js.toString (Js.Number (Js.trim chainId)))
              allPools)) w).
Proof.
  unfold returnTags, apiKeyGiven.
  destruct (Js.testDecimal (Js.trim chainId)); cbn [negb];
    [|left; eexists; split; [reflexivity | now left]].
  destruct (existsb _ supportedChains) eqn:Hchain; cbn [negb];
    [|left; eexists; split; [reflexivity | now left]].
  destruct (String.eqb apiKey "" || _); cbn [negb];
    [left; eexists; split; [reflexivity | now left]|].
  destruct (resolveSubgraphUrl _ apiKey) as [subgraphUrl|];
    [|left; eexists; split; [reflexivity | now right]].
  destruct (String.eqb subgraphUrl "" || _) eqn:Husable;
    [left; eexists; split; [reflexivity | now right]|].
  right. exists subgraphUrl. apply supported_existsb in Hchain. auto 10.
Qed.

(** All that [returnTags] sends, whatever the gateway answers and however
    the run ends. *)
Lemma returnTags_log (gateway : Gateway) (fuel : nat)
    (chainId apiKey : string) (w : World) :
  exists sent,
    requests (snd (returnTags gateway fuel chainId apiKey w)) =
      requests w ++ sent /\
    (sent = [] \/
     exists subgraphUrl,
       resolveSubgraphUrl (Js.toString (Js.Number (Js.trim chainId))) apiKey =
         Some subgraphUrl /\
       (sent = [metaRequest subgraphUrl] \/
        exists blockNumber later,
          fst (fetchIndexedBlockNumber gateway subgraphUrl w) =
            Returned blockNumber /\
          sent = metaRequest subgraphUrl ::
                 map (fun c => poolsRequest subgraphUrl c blockNumber)
                   (initialCursor :: later) /\
          fresh "" initialCursor later)).
Proof.
  destruct (returnTags_cases gateway fuel chainId apiKey w)
    as [(e & -> & _)|(subgraphUrl & _ & _ & _ & Hurl & _ & ->)].
  { exists []. cbn. rewrite app_nil_r. auto. }
  pose proof (fetchIndexedBlockNumber_sends gateway subgraphUrl w) as Hsent.
  unfold bind at 1.
  destruct (fetchIndexedBlockNumber gateway subgraphUrl w)
    as [[blockNumber|e|] w1] eqn:Hmeta; cbn [snd] in Hsent;
    [|exists [metaRequest subgraphUrl]; split;
      [exact Hsent | right; exists subgraphUrl; auto]..].
  destruct (paginate_log gateway subgraphUrl blockNumber fuel initialCursor ""
              [] w1) as (cursors & Hlog & Hshape).
  assert (Hrun : forall k : list LiquidityPool.t -> M (list ContractTag),
             (forall a w', snd (k a w') = w') ->
             snd (bind (paginate gateway fuel subgraphUrl blockNumber
                          initialCursor "" []) k w1) =
             snd (paginate gateway fuel subgraphUrl blockNumber initialCursor
                    "" [] w1)).
  { intros k Hk. unfold bind.
    destruct (paginate gateway fuel subgraphUrl blockNumber initialCursor "" [] w1)
      as [[a|e|] w']; cbn; [apply Hk | reflexivity..]. }
  rewrite Hrun by reflexivity. rewrite Hlog, Hsent, <- app_assoc.
  eexists. split; [reflexivity|]. right. exists subgraphUrl.
  split; [exact Hurl|].
  destruct cursors as [|first later]; [now left|].
  destruct Hshape as [-> Hfresh]. right. exists blockNumber, later.
  rewrite Hmeta. auto.
Qed.

(** X1. Whatever the gateway answers, everything [returnTags] sends goes to
    the one address resolved for the chain; the block query comes first and
    every pools query after it carries the block number that the block
    query returned; the first pools query carries the zero address. *)
Theorem snapshot_pinned (gateway : Gateway) (fuel : nat)
    (chainId apiKey : string) (w : World) :
  exists sent,
    requests (snd (returnTags gateway fuel chainId apiKey w)) =
      requests w ++ sent /\
    (sent = [] \/
     exists subgraphUrl,
       resolveSubgraphUrl (Js.toString (Js.Number (Js.trim chainId))) apiKey =
         Some subgraphUrl /\
       (sent = [metaRequest subgraphUrl] \/
        exists blockNumber later,
          fst (fetchIndexedBlockNumber gateway subgraphUrl w) =
            Returned blockNumber /\
          sent = metaRequest subgraphUrl ::
                 poolsRequest subgraphUrl initialCursor blockNumber ::
                 map (fun c => poolsRequest subgraphUrl c blockNumber) later)).
Proof.
  destruct (returnTags_log gateway fuel chainId apiKey w)
    as (sent & Hlog & Hshape).
  exists sent. split; [exact Hlog|].
  destruct Hshape as [->|(subgraphUrl & Hurl & [->|Hpools])]; [now left|..];
    right; exists subgraphUrl; (split; [exact Hurl|]); [now left|].
  destruct Hpools as (blockNumber & later & Hblock & -> & _).
  right. exists blockNumber, later. auto.
Qed.

Lemma fresh_lookup (later : list string) :
  forall (prev cursor : string) (i : nat) (a b : string),
    fresh prev cursor later ->
    (cursor :: later) !! i = Some a ->
    ((cursor :: later) !! S i = Some b -> b <> "" /\ b <> a) /\
    ((cursor :: later) !! S (S i) = Some b -> b <> a).
Proof.
  induction later as [|next rest IH]; intros prev cursor i a b Hfresh Ha.
  - destruct i; cbn; split; discriminate.
  - destruct Hfresh as (Hne & Hcur & Hprev & Hfresh).
    destruct i as [|i].
    + cbn in Ha. injection Ha as <-. split.
      * cbn. intros [= <-]. auto.
      * destruct rest as [|third rest']; cbn; [discriminate|].
        intros [= <-]. destruct Hfresh as (_ & _ & Hback & _). exact Hback.
    + exact (IH cursor next i a b Hfresh Ha).
Qed.

(** X2. Whatever the gateway answers, among the cursors of the pools
    queries that the loop sends, in the order sent, no cursor is empty after
    the first, none equals the one sent just before it, and none equals the
    one sent two queries before it. *)
Theorem cursors_never_repeat (gateway : Gateway) (subgraphUrl : string)
    (blockNumber : Z) (fuel : nat) (cursor : string)
    (allPools : list LiquidityPool.t) (w : World) :
  exists cursors,
    requests (snd (paginate gateway fuel subgraphUrl blockNumber cursor ""
                     allPools w)) =
      requests w ++ map (fun c => poolsRequest subgraphUrl c blockNumber) cursors /\
    forall (i : nat) (a b : string),
      cursors !! i = Some a ->
      (cursors !! S i = Some b -> b <> "" /\ b <> a) /\
      (cursors !! S (S i) = Some b -> b <> a).
Proof.
  destruct (paginate_log gateway subgraphUrl blockNumber fuel cursor ""
              allPools w) as (cursors & Hlog & Hshape).
  exists cursors. split; [exact Hlog|].
  destruct cursors as [|first later]; [intros i a b Ha; destruct i; discriminate Ha|].
  destruct Hshape as [-> Hfresh]. intros i a b Ha.
  exact (fresh_lookup later "" cursor i a b Hfresh Ha).
Qed.

(** ** The credential *)

(** X3. An empty credential, or one that is empty once trimmed, makes
    [returnTags] throw a validation error before any request, whatever the
    chain: the missing-key error when the chain is supported, the
    unsupported-chain error (the chain is tested first) when it is not. *)
Theorem blank_credential_rejected (gateway : Gateway) (fuel : nat)
    (chainId apiKey : string) (w : World) :
  apiKey = "" \/ Js.trim apiKey = "" ->
  exists e,
    returnTags gateway fuel chainId apiKey w = (Thrown e, w) /\
    errorKind e = ValidationError /\
    (Js.testDecimal (Js.trim chainId) = true /\
     In (Js.Number (Js.trim chainId)) supportedChains ->
     e = MissingApiKey) /\
    (Js.testDecimal (Js.trim chainId) = false \/
     ~ In (Js.Number (Js.trim chainId)) supportedChains ->
     e = UnsupportedChainId chainId).
Proof.
  intros Hblank.
  assert (Hkey : String.eqb apiKey "" || (Js.length (Js.trim apiKey) =? 0) = true).
  { destruct Hblank as [->|Htrim]; [reflexivity|].
    rewrite Htrim. apply orb_true_r. }
  unfold returnTags.
  destruct (Js.testDecimal (Js.trim chainId)); cbn [negb].
  - destruct (existsb _ supportedChains) eqn:Hchain; cbn [negb].
    + rewrite Hkey. exists MissingApiKey.
      apply supported_existsb in Hchain.
      split; [reflexivity|]. split; [reflexivity|].
      split; [reflexivity|]. intros [Hno|Hno]; [discriminate | contradiction].
    + exists (UnsupportedChainId chainId).
      split; [reflexivity|]. split; [reflexivity|].
      split; [|reflexivity]. intros [_ Hin].
      apply supported_existsb in Hin. congruence.
  - exists (UnsupportedChainId chainId).
    split; [reflexivity|]. split; [reflexivity|].
    split; [|reflexivity]. intros [Hyes _]. discriminate Hyes.
Qed.

Lemma blank_credential_rejected_witness :
  exists e,
    returnTags (scripted [metaReply 7; pageReply [poolA; poolB]]) 1 "137"
      "   " quiet = (Thrown e, quiet) /\
    errorKind e = ValidationError /\
    (Js.testDecimal (Js.trim "137") = true /\
     In (Js.Number (Js.trim "137")) supportedChains ->
     e = MissingApiKey) /\
    (Js.testDecimal (Js.trim "137") = false \/
     ~ In (Js.Number (Js.trim "137")) supportedChains ->
     e = UnsupportedChainId "137").
Proof.
  apply (blank_credential_rejected
           (scripted [metaReply 7; pageReply [poolA; poolB]]) 1 "137" "   "
           quiet).
  right. reflexivity.
Defined.

(** ** The block query *)

(** What [fetchIndexedBlockNumber] makes of the ways the block query can
    end. *)
Lemma fetchIndexedBlockNumber_outcome (gateway : Gateway) (subgraphUrl : string)
    (w : World) :
  fst (fetchIndexedBlockNumber gateway subgraphUrl w) =
  match gateway (requests w) (metaRequest subgraphUrl) with
  | Fulfilled resp =>
      if ok resp then
        match body resp with
        | NotJson => Thrown InvalidJson
        | JsonNull => Thrown MetaBlockNumberUnreadable
        | JsonValue document =>
            match data document ≫= meta_block_number with
            | Some blockNumber => Returned blockNumber
            | None => Thrown MetaBlockNumberUnreadable
            end
        end
      else Thrown (HttpErrorMeta (status resp))
  | Aborted => Thrown MetaTimedOut
  | Rejected reason => Thrown (Passed reason)
  end.
Proof.
  unfold fetchIndexedBlockNumber, bind, fetch, metaRequest.
  destruct (gateway _ _) as [resp| |reason]; cbn; [|reflexivity..].
  destruct (ok resp); cbn; [|reflexivity].
  destruct (body resp) as [| |document]; cbn; [reflexivity..|].
  now destruct (data document ≫= meta_block_number).
Qed.

Lemma returnTags_block_failed (gateway : Gateway) (fuel : nat)
    (chainId apiKey subgraphUrl : string) (w : World) (e : Error) :
  Js.testDecimal (Js.trim chainId) = true ->
  In (Js.Number (Js.trim chainId)) supportedChains ->
  apiKeyGiven apiKey = true ->
  resolveSubgraphUrl (Js.toString (Js.Number (Js.trim chainId))) apiKey =
    Some subgraphUrl ->
  String.eqb subgraphUrl "" || Js.includes "PLACEHOLDER" subgraphUrl = false ->
  fst (fetchIndexedBlockNumber gateway subgraphUrl w) = Thrown e ->
  fst (returnTags gateway fuel chainId apiKey w) = Thrown e /\
  requests (snd (returnTags gateway fuel chainId apiKey w)) =
    requests w ++ [metaRequest subgraphUrl].
Proof.
  intros Hdigits Hchain Hkey Hurl Husable Hfailed.
  pose proof (fetchIndexedBlockNumber_sends gateway subgraphUrl w) as Hsent.
  assert (Hrun : returnTags gateway fuel chainId apiKey w =
                 (Thrown e, snd (fetchIndexedBlockNumber gateway subgraphUrl w))).
  { rewrite (returnTags_accepted _ _ _ _ _ Hdigits Hchain), Hkey, Hurl, Husable.
    cbn [negb]. unfold bind at 1.
    destruct (fetchIndexedBlockNumber gateway subgraphUrl w) as [[b|e'|] w1];
      cbn [fst snd] in Hfailed |- *; [discriminate | | discriminate].
    now injection Hfailed as ->. }
  rewrite Hrun. cbn [fst snd]. auto.
Qed.

(** X4. On a supported chain with a usable credential, when the block
    query does not yield a block number (no answer in time, a failure
    status, a body without a number at [data._meta.block.number]),
    [returnTags] throws the error of the block query, a timeout, a transport
    or a schema error, and the block query is the only request it has sent:
    no page is asked for without a pinned block. *)
Theorem no_block_no_pages (gateway : Gateway) (fuel : nat)
    (chainId apiKey subgraphUrl : string) (w : World) :
  Js.testDecimal (Js.trim chainId) = true ->
  In (Js.Number (Js.trim chainId)) supportedChains ->
  apiKeyGiven apiKey = true ->
  resolveSubgraphUrl (Js.toString (Js.Number (Js.trim chainId))) apiKey =
    Some subgraphUrl ->
  String.eqb subgraphUrl "" || Js.includes "PLACEHOLDER" subgraphUrl = false ->
  let reply := gateway (requests w) (metaRequest subgraphUrl) in
  let run := returnTags gateway fuel chainId apiKey w in
  let onlyBlockQuery :=
    requests (snd run) = requests w ++ [metaRequest subgraphUrl] in
  (reply = Aborted ->
   fst run = Thrown MetaTimedOut /\
   errorKind MetaTimedOut = TimeoutError /\ onlyBlockQuery) /\
  (forall resp, reply = Fulfilled resp -> ok resp = false ->
   fst run = Thrown (HttpErrorMeta (status resp)) /\
   errorKind (HttpErrorMeta (status resp)) = TransportError /\ onlyBlockQuery) /\
  (forall resp document, reply = Fulfilled resp -> ok resp = true ->
   json resp = Some document -> data document ≫= meta_block_number = None ->
   fst run = Thrown MetaBlockNumberUnreadable /\
   errorKind MetaBlockNumberUnreadable = SchemaError /\ onlyBlockQuery).
Proof.
  intros Hdigits Hchain Hkey Hurl Husable reply run onlyBlockQuery.
  pose proof (fetchIndexedBlockNumber_outcome gateway subgraphUrl w) as Hout.
  fold reply in Hout.
  assert (Hfail : forall e,
             fst (fetchIndexedBlockNumber gateway subgraphUrl w) = Thrown e ->
             fst run = Thrown e /\ onlyBlockQuery)
    by (intros e; apply returnTags_block_failed; assumption).
  split; [|split].
  - intros Hreply. rewrite Hreply in Hout.
    destruct (Hfail _ Hout). auto.
  - intros resp Hreply Hok. rewrite Hreply, Hok in Hout.
    destruct (Hfail _ Hout). auto.
  - intros resp document Hreply Hok Hjson Hdata.
    apply json_document in Hjson.
    rewrite Hreply, Hok, Hjson, Hdata in Hout.
    destruct (Hfail _ Hout). auto.
Qed.

Lemma no_block_no_pages_witness :
  fst (returnTags (scripted []) 1 "137" "key" quiet) = Thrown MetaTimedOut /\
  errorKind MetaTimedOut = TimeoutError /\
  requests (snd (returnTags (scripted []) 1 "137" "key" quiet)) =
    requests quiet ++
    [metaRequest
       "https://gateway.thegraph.com/api/key/deployments/id/Qmc3gbKAd1eemQbaTvY93S2FpuPEipGaVKCQ97pBkXgtyN"].
Proof.
  apply (no_block_no_pages (scripted []) 1 "137" "key"
           "https://gateway.thegraph.com/api/key/deployments/id/Qmc3gbKAd1eemQbaTvY93S2FpuPEipGaVKCQ97pBkXgtyN"
           quiet); try reflexivity.
  vm_compute. tauto.
Defined.

(** ** The page fetcher *)

(** X5. When the reply to a pools query has a success status and a body
    with an [errors] member, [fetchPools] writes one console line per error,
    in order, each with the prefix of the pools query, then throws the query
    error; the [data] of the reply plays no part, and an empty list of errors
    throws all the same, without a line. *)
Theorem graphql_errors_logged_then_thrown (gateway : Gateway)
    (subgraphUrl cursor : string) (blockNumber : Z) (w : World)
    (response : Response) (result : GraphQLResponse)
    (errs : list GraphQLError) :
  gateway (requests w) (poolsRequest subgraphUrl cursor blockNumber) =
    Fulfilled response ->
  ok response = true ->
  json response = Some result ->
  errors result = Some errs ->
  fetchPools gateway subgraphUrl cursor blockNumber w =
    (Thrown GraphQLErrorPools,
     mkWorld (requests w ++ [poolsRequest subgraphUrl cursor blockNumber])
       (console w ++
        map (fun e => "GraphQL error (pools): " +:+ message e) errs)) /\
  errorKind GraphQLErrorPools = QueryError.
Proof.
  intros Hreply Hok Hjson Herrors. split; [|reflexivity].
  unfold fetchPools, bind at 1, fetch. fold (poolsRequest subgraphUrl cursor blockNumber).
  apply json_document in Hjson.
  rewrite Hreply, Hok. cbn [negb]. rewrite Hjson, Herrors.
  unfold bind. rewrite forEach_console_error. reflexivity.
Qed.

Lemma graphql_errors_logged_then_thrown_witness :
  fetchPools
    (scripted
       [Fulfilled (mkResponse true 200
          (JsonValue
             (mkGraphQLResponse (Some (mkData None (Some [poolA])))
                (Some [mkGraphQLError "bad block"; mkGraphQLError "slow"]))))])
    exampleUrl initialCursor 7 quiet =
  (Thrown GraphQLErrorPools,
   mkWorld (requests quiet ++ [poolsRequest exampleUrl initialCursor 7])
     (console quiet ++
      map (fun e => "GraphQL error (pools): " +:+ message e)
        [mkGraphQLError "bad block"; mkGraphQLError "slow"])) /\
  errorKind GraphQLErrorPools = QueryError.
Proof.
  apply (graphql_errors_logged_then_thrown _ _ _ _ _
           (mkResponse true 200
              (JsonValue
                 (mkGraphQLResponse (Some (mkData None (Some [poolA])))
                    (Some [mkGraphQLError "bad block"; mkGraphQLError "slow"]))))
           (mkGraphQLResponse (Some (mkData None (Some [poolA])))
              (Some [mkGraphQLError "bad block"; mkGraphQLError "slow"])));
    reflexivity.
Defined.

(** What [fetchPools] makes of the ways the pools query can end. *)
Lemma fetchPools_outcome (gateway : Gateway) (subgraphUrl cursor : string)
    (blockNumber : Z) (w : World) :
  fetchPools gateway subgraphUrl cursor blockNumber w =
  let sent := requests w ++ [poolsRequest subgraphUrl cursor blockNumber] in
  match gateway (requests w) (poolsRequest subgraphUrl cursor blockNumber) with
  | Fulfilled response =>
      if ok response then
        match body response with
        | NotJson => (Thrown InvalidJson, mkWorld sent (console w))
        | JsonNull => (Thrown NullResult, mkWorld sent (console w))
        | JsonValue result =>
            match errors result with
            | Some errs =>
                (Thrown GraphQLErrorPools,
                 mkWorld sent
                   (console w ++
                    map (fun e => "GraphQL error (pools): " +:+ message e) errs))
            | None =>
                (Returned (default [] (data result ≫= liquidityPools)),
                 mkWorld sent (console w))
            end
        end
      else (Thrown (HttpErrorPools (status response)), mkWorld sent (console w))
  | Aborted => (Thrown PoolsTimedOut, mkWorld sent (console w))
  | Rejected reason => (Thrown (Passed reason), mkWorld sent (console w))
  end.
Proof.
  unfold fetchPools, bind at 1, fetch.
  fold (poolsRequest subgraphUrl cursor blockNumber). cbv zeta.
  destruct (gateway _ _) as [response| |reason]; cbn; [|reflexivity..].
  destruct (ok response); cbn; [|reflexivity].
  destruct (body response) as [| |result]; cbn; [reflexivity..|].
  destruct (errors result) as [errs|]; cbn; [|reflexivity].
  unfold bind. rewrite forEach_console_error. reflexivity.
Qed.

(** X6. [fetchPools] returns a page exactly for a reply that was fulfilled
    with a success status and whose body is a JSON document other than
    [null] without an [errors] member; the page is then the list at
    [data.liquidityPools], or the empty list, and the console is as before.
    A body that is the document [null] makes it throw the error of reading
    [errors] of [null], a body that is no JSON document the error of the
    parser.  A reply with a failure status makes it throw the transport
    error with that status, without a console line, whatever the body holds;
    no reply in time makes it throw the timeout error. *)
Theorem page_only_from_clean_reply (gateway : Gateway)
    (subgraphUrl cursor : string) (blockNumber : Z) (w : World) :
  let reply := gateway (requests w) (poolsRequest subgraphUrl cursor blockNumber) in
  let run := fetchPools gateway subgraphUrl cursor blockNumber w in
  let sent := requests w ++ [poolsRequest subgraphUrl cursor blockNumber] in
  (forall page,
      fst run = Returned page <->
      exists response result,
        reply = Fulfilled response /\ ok response = true /\
        body response = JsonValue result /\ errors result = None /\
        page = default [] (data result ≫= liquidityPools)) /\
  (forall page, fst run = Returned page -> console (snd run) = console w) /\
  (forall response,
      reply = Fulfilled response -> ok response = true ->
      body response = JsonNull ->
      run = (Thrown NullResult, mkWorld sent (console w))) /\
  (forall response,
      reply = Fulfilled response -> ok response = true ->
      body response = NotJson ->
      run = (Thrown InvalidJson, mkWorld sent (console w))) /\
  (forall response,
      reply = Fulfilled response -> ok response = false ->
      run = (Thrown (HttpErrorPools (status response)), mkWorld sent (console w))) /\
  (reply = Aborted -> run = (Thrown PoolsTimedOut, mkWorld sent (console w))).
Proof.
  cbv zeta. rewrite fetchPools_outcome. cbv zeta.
  destruct (gateway (requests w) (poolsRequest subgraphUrl cursor blockNumber))
    as [response| |reason].
  - assert (Hsame : forall r : Response, Fulfilled response = Fulfilled r ->
              response = r) by (intros r Hr; now injection Hr).
    assert (Hnone : forall page : list LiquidityPool.t,
              (exists r d, Fulfilled response = Fulfilled r /\ ok r = true /\
                 body r = JsonValue d /\ errors d = None /\
                 page = default [] (data d ≫= liquidityPools)) ->
              exists d, ok response = true /\ body response = JsonValue d /\
                 errors d = None /\
                 page = default [] (data d ≫= liquidityPools)).
    { intros page (r & d & Hr & H). apply Hsame in Hr. subst r. eauto. }
    repeat split.
    + intros Hpage. destruct (ok response) eqn:Hok; [|discriminate Hpage].
      destruct (body response) as [| |result] eqn:Hbody;
        try discriminate Hpage.
      destruct (errors result) as [errs|] eqn:Herrors; [discriminate Hpage|].
      injection Hpage as <-. exists response, result. auto.
    + intros Hex. apply Hnone in Hex as (d & -> & -> & -> & ->). reflexivity.
    + destruct (ok response); [|discriminate].
      destruct (body response) as [| |result]; try discriminate.
      destruct (errors result) as [errs|]; [discriminate | reflexivity].
    + intros r Hr Hok Hbody. apply Hsame in Hr. subst r.
      now rewrite Hok, Hbody.
    + intros r Hr Hok Hbody. apply Hsame in Hr. subst r.
      now rewrite Hok, Hbody.
    + intros r Hr Hok. apply Hsame in Hr. subst r. now rewrite Hok.
    + discriminate.
  - repeat split; try discriminate.
    intros (r & d & Hr & _). discriminate Hr.
  - repeat split; try discriminate.
    intros (r & d & Hr & _). discriminate Hr.
Qed.

(** ** Truncation *)

Lemma substring0_prefix (n : nat) (s : string) :
  String.prefix (String.substring 0 n s) s = true.
Proof.
  revert s. induction n as [|n IH]; intros [|c s]; cbn; try reflexivity.
  destruct (ascii_dec c c) as [_|Hne]; [apply IH | contradiction].
Qed.

(** X7. [truncateString] leaves a text of at most [maxLength] characters
    as it is.  A longer text becomes its first [maxLength - 3] characters
    followed by three dots: exactly [maxLength] characters when [maxLength]
    is at least 3, and the three dots alone, more than [maxLength]
    characters, when [maxLength] is below 3.  For [maxLength] at least 3 the
    result is never longer than [maxLength] and truncating it again changes
    nothing. *)
Theorem truncateString_bounds (text : string) (maxLength : Z) :
  (Js.length text <= maxLength -> truncateString text maxLength = text) /\
  (maxLength < Js.length text ->
   truncateString text maxLength =
     String.substring 0 (Z.to_nat (maxLength - 3)) text +:+ "..." /\
   String.prefix (String.substring 0 (Z.to_nat (maxLength - 3)) text) text = true /\
   (3 <= maxLength -> Js.length (truncateString text maxLength) = maxLength) /\
   (maxLength < 3 -> truncateString text maxLength = "...")) /\
  (3 <= maxLength ->
   Js.length (truncateString text maxLength) <= maxLength /\
   truncateString (truncateString text maxLength) maxLength =
     truncateString text maxLength).
Proof.
  assert (Hshort : Js.length text <= maxLength ->
                   truncateString text maxLength = text).
  { intros Hle. unfold truncateString.
    destruct (Z.gtb_spec (Js.length text) maxLength); [lia | reflexivity]. }
  assert (Hlong : maxLength < Js.length text ->
                  truncateString text maxLength =
                  String.substring 0 (Z.to_nat (maxLength - 3)) text +:+ "...").
  { intros Hlt. unfold truncateString, Js.substring0.
    destruct (Z.gtb_spec (Js.length text) maxLength); [reflexivity | lia]. }
  assert (Hexact : maxLength < Js.length text -> 3 <= maxLength ->
                   Js.length (truncateString text maxLength) = maxLength).
  { intros Hlt Hthree. rewrite (Hlong Hlt). unfold Js.length in *.
    rewrite length_append, substring0_length.
    change (String.length "...") with 3%nat. lia. }
  split; [exact Hshort|]. split.
  - intros Hlt. split; [exact (Hlong Hlt)|].
    split; [apply substring0_prefix|]. split; [exact (Hexact Hlt)|].
    intros Hsmall. rewrite (Hlong Hlt).
    replace (Z.to_nat (maxLength - 3)) with 0%nat by lia.
    now destruct text.
  - intros Hthree.
    assert (Hbound : Js.length (truncateString text maxLength) <= maxLength).
    { destruct (Z.le_gt_cases (Js.length text) maxLength) as [Hle|Hgt].
      - now rewrite (Hshort Hle).
      - rewrite (Hexact ltac:(lia) Hthree). lia. }
    split; [exact Hbound|].
    unfold truncateString at 1.
    destruct (Z.gtb_spec (Js.length (truncateString text maxLength)) maxLength);
      [lia | reflexivity].
Qed.

Example truncateString_below_three : truncateString "abcdef" 2 = "...".
Proof. reflexivity. Qed.

(** ** The transformer on whole lists *)

(** Every tag pushed by the loop is the tag of the LP token of a record,
    and that token has an id. *)
Lemma transformLoop_emitted_tag (chainId : string)
    (pools : list LiquidityPool.t) :
  forall (seen : gset string) (t : ContractTag),
    t ∈ fst (transformLoop chainId pools ([], seen)) ->
    exists pool lpToken,
      pool ∈ pools /\ LiquidityPool.outputToken pool = Some lpToken /\
      Token.id lpToken <> "" /\ t ∈ tagOfToken chainId lpToken.
Proof.
  induction pools as [|pool rest IH]; intros seen t.
  - simpl. intros Hnil. now apply elem_of_nil in Hnil.
  - cbn [transformLoop]. rewrite transformStep_eq.
    destruct (freshToken pool seen) as [lpToken|] eqn:Hfresh.
    + apply freshToken_spec in Hfresh as (Hout & Hid & _).
      rewrite transformLoop_tags. cbn [fst]. rewrite app_nil_l.
      intros Hin. apply elem_of_app in Hin as [Hin|Hin].
      * exists pool, lpToken. split; [left | auto].
      * destruct (IH _ _ Hin) as (p & tok & ? & ? & ? & ?).
        exists p, tok. split; [now right | auto].
    + intros Hin. destruct (IH _ _ Hin) as (p & tok & ? & ? & ? & ?).
      exists p, tok. split; [now right | auto].
Qed.

(** X8. Every tag that [transformPoolsToTags] returns, for any list of
    records, is made from the LP token of one of the records: the token has
    an id and a symbol that is not empty once trimmed; the address is
    [eip155:], the chain, a colon and the id; the label is the trimmed
    symbol and [" Pool"], cut to 45 characters, and has between 6 and 45
    characters; project and link are the constants; the note holds the
    trimmed symbol and the trimmed name. *)
Theorem every_tag_well_formed (chainId : string)
    (pools : list LiquidityPool.t) (t : ContractTag) :
  t ∈ transformPoolsToTags chainId pools ->
  exists pool lpToken lpSymbol lpName,
    pool ∈ pools /\ LiquidityPool.outputToken pool = Some lpToken /\
    Token.id lpToken <> "" /\
    lpSymbol = default "" (Js.trim <$> Token.symbol lpToken) /\
    lpSymbol <> "" /\
    lpName = default "" (Js.trim <$> Token.name lpToken) /\
    Contract_Address t = "eip155:" +:+ chainId +:+ ":" +:+ Token.id lpToken /\
    Public_Name_Tag t = truncateString (lpSymbol +:+ " Pool") 45 /\
    (6 <= String.length (Public_Name_Tag t) <= 45)%nat /\
    Project_Name t = "Sushi" /\
    UI_Website_Link t = "https://www.sushi.com/" /\
    Public_Note t =
      "Sushi's " +:+ lpSymbol +:+ " (" +:+ lpName +:+ ") pool contract.".
Proof.
  intros Hin.
  apply transformLoop_emitted_tag in Hin as (pool & lpToken & Hp & Hout & Hid & Ht).
  exists pool, lpToken, (default "" (Js.trim <$> Token.symbol lpToken)),
    (default "" (Js.trim <$> Token.name lpToken)).
  unfold tagOfToken in Ht.
  destruct (String.eqb_spec (default "" (Js.trim <$> Token.symbol lpToken)) "")
    as [|Hsym]; [now apply elem_of_nil in Ht|].
  apply list_elem_of_singleton in Ht. subst t. cbn.
  repeat (split; [first [assumption | reflexivity]|]).
  split; [|auto].
  destruct (truncateString_law (default "" (Js.trim <$> Token.symbol lpToken)))
    as (Hmax & Hlong & Hshort).
  split; [|exact Hmax].
  destruct (Nat.le_gt_cases
              (String.length (default "" (Js.trim <$> Token.symbol lpToken)) + 5)
              45) as [Hle|Hgt].
  - rewrite (Hshort Hle), length_append.
    destruct (default "" (Js.trim <$> Token.symbol lpToken));
      [contradiction | cbn; lia].
  - destruct (Hlong Hgt) as [-> _]. lia.
Qed.

Lemma every_tag_well_formed_witness :
  exists pool lpToken lpSymbol lpName,
    pool ∈ [poolB; longPool] /\ LiquidityPool.outputToken pool = Some lpToken /\
    Token.id lpToken <> "" /\
    lpSymbol = default "" (Js.trim <$> Token.symbol lpToken) /\
    lpSymbol <> "" /\
    lpName = default "" (Js.trim <$> Token.name lpToken) /\
    Contract_Address longTag =
      "eip155:" +:+ "56" +:+ ":" +:+ Token.id lpToken /\
    Public_Name_Tag longTag = truncateString (lpSymbol +:+ " Pool") 45 /\
    (6 <= String.length (Public_Name_Tag longTag) <= 45)%nat /\
    Project_Name longTag = "Sushi" /\
    UI_Website_Link longTag = "https://www.sushi.com/" /\
    Public_Note longTag =
      "Sushi's " +:+ lpSymbol +:+ " (" +:+ lpName +:+ ") pool contract.".
Proof.
  apply (every_tag_well_formed "56" [poolB; longPool]).
  vm_compute. left.
Defined.

Lemma transformLoop_sublist (chainId : string) (pools : list LiquidityPool.t) :
  forall seen : gset string,
    sublist
      (Contract_Address <$> fst (transformLoop chainId pools ([], seen)))
      (omap (candidateAddress chainId) pools).
Proof.
  induction pools as [|pool rest IH]; intros seen; [constructor|].
  assert (Homap : omap (candidateAddress chainId) (pool :: rest) =
                  match LiquidityPool.outputToken pool with
                  | Some lpToken =>
                      tagAddress chainId (Token.id lpToken) ::
                      omap (candidateAddress chainId) rest
                  | None => omap (candidateAddress chainId) rest
                  end)
    by (cbn; unfold candidateAddress at 1;
        now destruct (LiquidityPool.outputToken pool)).
  rewrite Homap. cbn [transformLoop]. rewrite transformStep_eq.
  destruct (freshToken pool seen) as [lpToken|] eqn:Hfresh.
  - apply freshToken_spec in Hfresh as (Hout & _ & _). rewrite Hout.
    rewrite transformLoop_tags. cbn [fst]. rewrite app_nil_l, fmap_app.
    pose proof (tagOfToken_length chainId lpToken) as Hlen.
    pose proof (tagOfToken_address chainId lpToken) as Haddr.
    destruct (tagOfToken chainId lpToken) as [|t [|]]; cbn in Hlen; [| |lia].
    + cbn. apply sublist_cons, IH.
    + cbn. rewrite (Haddr t) by left. apply sublist_skip, IH.
  - destruct (LiquidityPool.outputToken pool); [apply sublist_cons|]; apply IH.
Qed.

(** X9. The tags come in the order of the records: the addresses of the
    tags returned are, in order, a selection (without reordering) of the
    addresses that the records with an LP token stand for. *)
Theorem tags_keep_input_order (chainId : string)
    (pools : list LiquidityPool.t) :
  sublist (Contract_Address <$> transformPoolsToTags chainId pools)
    (omap (candidateAddress chainId) pools) /\
  (length (transformPoolsToTags chainId pools) <= length pools)%nat.
Proof.
  assert (Hsub : sublist (Contract_Address <$> transformPoolsToTags chainId pools)
                   (omap (candidateAddress chainId) pools))
    by apply transformLoop_sublist.
  split; [exact Hsub|].
  apply sublist_length in Hsub. rewrite length_fmap in Hsub.
  assert (Homap : (length (omap (candidateAddress chainId) pools) <=
                   length pools)%nat).
  { clear Hsub. induction pools as [|pool rest IH]; [reflexivity|].
    cbn. destruct (candidateAddress chainId pool); cbn; lia. }
  lia.
Qed.

Lemma transformStep_token_only (chainId : string) (p q : LiquidityPool.t)
    (st : list ContractTag * gset string) :
  LiquidityPool.outputToken p = LiquidityPool.outputToken q ->
  transformStep chainId p st = transformStep chainId q st.
Proof. intros Heq. unfold transformStep. now rewrite Heq. Qed.

(** X10. The tags depend on the records through their LP tokens only:
    two lists of records with the same LP tokens, position by position, give
    the same tags, whatever the ids, names, symbols and input tokens of the
    pools themselves. *)
Theorem tags_depend_on_lp_tokens_only (chainId : string)
    (pools pools' : list LiquidityPool.t) :
  LiquidityPool.outputToken <$> pools = LiquidityPool.outputToken <$> pools' ->
  transformPoolsToTags chainId pools = transformPoolsToTags chainId pools'.
Proof.
  unfold transformPoolsToTags. generalize (([], ∅) : list ContractTag * gset string).
  revert pools'. induction pools as [|p rest IH]; intros [|q rest'] st Heq;
    try discriminate Heq; [reflexivity|].
  cbn in Heq. injection Heq as Hhead Htail.
  cbn [transformLoop]. rewrite (transformStep_token_only chainId p q st Hhead).
  exact (IH rest' _ Htail).
Qed.

Lemma tags_depend_on_lp_tokens_only_witness :
  transformPoolsToTags "137" [poolA; poolB] =
  transformPoolsToTags "137" [poolA'; poolB].
Proof.
  apply (tags_depend_on_lp_tokens_only "137" [poolA; poolB] [poolA'; poolB]).
  reflexivity.
Defined.

(** X11. The id of an LP token is marked as seen before its symbol is
    looked at.  So when the first record that carries an id has a symbol
    that is absent or empty once trimmed, no tag is returned for that id at
    all, whatever the later records with the same id hold. *)
Theorem blank_first_record_shadows (chainId : string)
    (before after : list LiquidityPool.t) (pool : LiquidityPool.t)
    (lpToken : Token.t) :
  LiquidityPool.outputToken pool = Some lpToken ->
  Token.id lpToken <> "" ->
  default "" (Js.trim <$> Token.symbol lpToken) = "" ->
  (forall p, p ∈ before -> ~ carries (Token.id lpToken) p) ->
  forall t,
    t ∈ transformPoolsToTags chainId (before ++ pool :: after) ->
    Contract_Address t <> tagAddress chainId (Token.id lpToken).
Proof.
  intros Hout Hid Hblank Hbefore t Hin Haddr.
  assert (Hnone : tagsFor chainId (Token.id lpToken)
                    (transformPoolsToTags chainId (before ++ pool :: after)) = []).
  { unfold transformPoolsToTags.
    rewrite (transformLoop_first chainId before pool after lpToken ∅)
      by (auto; apply not_elem_of_empty).
    unfold tagOfToken. now rewrite Hblank. }
  assert (Hthere : t ∈ tagsFor chainId (Token.id lpToken)
                     (transformPoolsToTags chainId (before ++ pool :: after)))
    by (apply list_elem_of_filter; auto).
  rewrite Hnone in Hthere. now apply elem_of_nil in Hthere.
Qed.

Lemma blank_first_record_shadows_witness :
  transformPoolsToTags "137" ([poolA] ++ blankPool :: [namedPool]) =
    [ mkTag "eip155:137:0xaaa" "SLP Pool" "Sushi" "https://www.sushi.com/"
        "Sushi's SLP (Sushi LP Token) pool contract." ] /\
  Contract_Address
    (mkTag "eip155:137:0xaaa" "SLP Pool" "Sushi" "https://www.sushi.com/"
       "Sushi's SLP (Sushi LP Token) pool contract.") <>
  tagAddress "137" "0xddd".
Proof.
  split; [vm_compute; reflexivity|].
  apply (blank_first_record_shadows "137" [poolA] [namedPool] blankPool
           (Token.mk "0xddd" (Some "   ") (Some "Unnamed")));
    [reflexivity | discriminate | reflexivity | | vm_compute; left].
  intros p Hp (tok & Hout & Hid).
  apply list_elem_of_singleton in Hp. subst p.
  injection Hout as <-. discriminate Hid.
Defined.

Example blank_then_named :
  transformPoolsToTags "137" [blankPool; namedPool] = [] /\
  transformPoolsToTags "137" [namedPool; blankPool] =
  [ mkTag "eip155:137:0xddd" "DDD Pool" "Sushi" "https://www.sushi.com/"
      "Sushi's DDD (Named) pool contract." ].
Proof. split; vm_compute; reflexivity. Qed.

(** ** The whole run against a gateway that answers from a table *)













(** ** The address of the subgraph *)

Section Substrings.

Lemma append_cons (x : ascii) (a b : string) :
  String x a +:+ b = String x (a +:+ b).
Proof. reflexivity. Qed.

Lemma append_assoc (a b c : string) : (a +:+ b) +:+ c = a +:+ (b +:+ c).
Proof.
  induction a as [|x a IH]; [reflexivity|].
  rewrite !append_cons. now f_equal.
Qed.

Lemma prefix_append (p b : string) : String.prefix p (p +:+ b) = true.
Proof.
  induction p as [|x p IH]; [now destruct b|].
  rewrite append_cons. cbn [String.prefix].
  destruct (ascii_dec x x) as [_|Hne]; [exact IH | contradiction].
Qed.

Lemma prefix_elim (p : string) :
  forall s, String.prefix p s = true -> exists b, s = p +:+ b.
Proof.
  induction p as [|x p IH]; intros s Hp; [now exists s|].
  destruct s as [|y s]; cbn [String.prefix] in Hp; [discriminate|].
  destruct (ascii_dec x y) as [->|_]; [|discriminate].
  destruct (IH s Hp) as [b ->]. now exists b.
Qed.

Lemma includes_unfold (p s : string) :
  Js.includes p s =
  String.prefix p s ||
  match s with
  | String _ s' => Js.includes p s'
  | EmptyString => false
  end.
Proof. now destruct s. Qed.

Lemma includes_intro (p a b : string) : Js.includes p (a +:+ p +:+ b) = true.
Proof.
  induction a as [|x a IH].
  - change ("" +:+ p +:+ b) with (p +:+ b).
    now rewrite includes_unfold, prefix_append.
  - rewrite append_cons, includes_unfold, IH. apply orb_true_r.
Qed.

Lemma includes_elim (p s : string) :
  Js.includes p s = true -> exists a b, s = a +:+ p +:+ b.
Proof.
  induction s as [|x s IH]; rewrite includes_unfold; intros Hin.
  - rewrite orb_false_r in Hin. apply prefix_elim in Hin as [b ->].
    now exists "", b.
  - apply orb_true_iff in Hin as [Hp|Hin].
    + apply prefix_elim in Hp as [b ->]. now exists "", b.
    + destruct (IH Hin) as (a & b & ->). now exists (String x a), b.
Qed.

(** A character that is not in the pattern cuts the search in two. *)
Lemma prefix_cut (c : ascii) (a b : string) :
  forall p, occurs c p = false ->
    String.prefix p (a +:+ String c b) = String.prefix p a.
Proof.
  induction a as [|x a IH]; intros [|d p] Hc; try reflexivity.
  - change ("" +:+ String c b) with (String c b). cbn [String.prefix].
    cbn [occurs] in Hc. apply orb_false_iff in Hc as [Hcd _].
    destruct (ascii_dec d c) as [->|_]; [|reflexivity].
    now rewrite Ascii.eqb_refl in Hcd.
  - rewrite append_cons. cbn [String.prefix].
    cbn [occurs] in Hc. apply orb_false_iff in Hc as [_ Hc].
    destruct (ascii_dec d x); [exact (IH p Hc) | reflexivity].
Qed.

Lemma includes_cut (c : ascii) (p a b : string) :
  occurs c p = false ->
  Js.includes p (a +:+ String c b) = Js.includes p a || Js.includes p b.
Proof.
  intros Hc. induction a as [|x a IH].
  - change ("" +:+ String c b) with (String c b).
    rewrite includes_unfold, (includes_unfold p "").
    change (String c b) with ("" +:+ String c b) at 1.
    rewrite (prefix_cut c "" b p Hc). now rewrite orb_false_r.
  - rewrite includes_unfold, (prefix_cut c (String x a) b p Hc).
    rewrite append_cons, IH, (includes_unfold p (String x a)).
    now rewrite orb_assoc.
Qed.

Lemma occurs_append (c : ascii) (a b : string) :
  occurs c (a +:+ b) = occurs c a || occurs c b.
Proof.
  induction a as [|x a IH]; [reflexivity|].
  rewrite append_cons. cbn [occurs]. now rewrite IH, orb_assoc.
Qed.

Lemma includes_occurs (c : ascii) (p s : string) :
  Js.includes (String c p) s = true -> occurs c s = true.
Proof.
  induction s as [|x s IH]; rewrite includes_unfold; cbn [String.prefix occurs];
    [discriminate|].
  destruct (ascii_dec c x) as [->|_].
  - now rewrite Ascii.eqb_refl.
  - cbn [orb]. intros Hin. rewrite (IH Hin). apply orb_true_r.
Qed.

End Substrings.

Section Encoding.

Lemma encodeURIComponent_append (a b : string) :
  Js.encodeURIComponent (a +:+ b) =
  Js.encodeURIComponent a +:+ Js.encodeURIComponent b.
Proof.
  induction a as [|x a IH]; [reflexivity|].
  rewrite append_cons. cbn [Js.encodeURIComponent].
  now rewrite IH, append_assoc.
Qed.

Lemma escaped_append (a b : string) :
  escaped (a +:+ b) = escaped a && escaped b.
Proof.
  induction a as [|x a IH]; [reflexivity|].
  rewrite append_cons. cbn [escaped]. now rewrite IH, andb_assoc.
Qed.

Lemma encodeChar_escaped (c : ascii) : escaped (Js.encodeChar c) = true.
Proof.
  destruct c as [[] [] [] [] [] [] [] []]; vm_compute; reflexivity.
Qed.

Lemma encodeURIComponent_escaped (s : string) :
  escaped (Js.encodeURIComponent s) = true.
Proof.
  induction s as [|x s IH]; [reflexivity|].
  cbn [Js.encodeURIComponent].
  now rewrite escaped_append, encodeChar_escaped, IH.
Qed.

Lemma escaped_occurs (c : ascii) (s : string) :
  escaped s = true -> Js.isUnreserved c || Ascii.eqb c "%" = false ->
  occurs c s = false.
Proof.
  intros Hs Hc. induction s as [|x s IH]; [reflexivity|].
  cbn [escaped] in Hs. apply andb_true_iff in Hs as [Hx Hs].
  cbn [occurs]. rewrite (IH Hs), orb_false_r.
  destruct (Ascii.eqb_spec c x) as [->|_]; [congruence | reflexivity].
Qed.

End Encoding.

(** The address of a supported chain: the credential, escaped, between the
    two fixed parts of the template. *)
Lemma resolve_supported (n : Z) (apiKey : string) :
  In n supportedChains ->
  exists deployment,
    SUBGRAPH_URLS !! Js.toString n =
      Some ("https://gateway.thegraph.com/api/[api-key]/deployments/id/" +:+
            deployment) /\
    resolveSubgraphUrl (Js.toString n) apiKey =
      Some ("https://gateway.thegraph.com/api" +:+
            String "/" (Js.encodeURIComponent apiKey +:+
                        String "/" ("deployments/id/" +:+ deployment))) /\
    occurs "[" deployment = false /\
    Js.includes "PLACEHOLDER" ("deployments/id/" +:+ deployment) = false.
Proof.
  intros Hin. simpl in Hin.
  destruct Hin as [<-|[<-|[<-|[<-|[]]]]].
  - exists "QmPi9QJjaPfoTEwfNMiuqoZmTc1RGFi3DeZy4UERDDqSJn".
    repeat split; vm_compute; reflexivity.
  - exists "Qmc3gbKAd1eemQbaTvY93S2FpuPEipGaVKCQ97pBkXgtyN".
    repeat split; vm_compute; reflexivity.
  - exists "QmZ3Zs57Bt9njPji3Ty6A9761hwQaHYYGMCjs5f7oiidxz".
    repeat split; vm_compute; reflexivity.
  - exists "QmZw2kXL8tt6FoNeo4qLSN3rbe9tkWtGxDtBV3iWJMEkf7".
    repeat split; vm_compute; reflexivity.
Qed.

(** The search for [PLACEHOLDER] in an address of that form only finds what
    the escaped credential holds. *)
Lemma placeholder_in_address (encoded deployment : string) :
  Js.includes "PLACEHOLDER" ("deployments/id/" +:+ deployment) = false ->
  Js.includes "PLACEHOLDER"
    ("https://gateway.thegraph.com/api" +:+
     String "/" (encoded +:+ String "/" ("deployments/id/" +:+ deployment))) =
  Js.includes "PLACEHOLDER" encoded.
Proof.
  intros Hpost.
  rewrite (includes_cut "/" "PLACEHOLDER") by reflexivity.
  rewrite (includes_cut "/" "PLACEHOLDER") by reflexivity.
  rewrite Hpost, orb_false_r. reflexivity.
Qed.

(** X13. For each of the four supported chains and any credential, the
    address resolved is the template of the chain with the escaped
    credential in the place of [[api-key]]: [https://gateway.thegraph.com/api/],
    the escaped credential, [/deployments/id/] and the deployment of the
    chain.  It passes the test of [returnTags] on the address exactly when
    the escaped credential does not contain [PLACEHOLDER]. *)
Theorem subgraph_url_resolved (n : Z) (apiKey : string) :
  In n supportedChains ->
  exists deployment,
    SUBGRAPH_URLS !! Js.toString n =
      Some ("https://gateway.thegraph.com/api/[api-key]/deployments/id/" +:+
            deployment) /\
    resolveSubgraphUrl (Js.toString n) apiKey =
      Some ("https://gateway.thegraph.com/api/" +:+
            Js.encodeURIComponent apiKey +:+ "/deployments/id/" +:+ deployment) /\
    String.eqb
      ("https://gateway.thegraph.com/api/" +:+
       Js.encodeURIComponent apiKey +:+ "/deployments/id/" +:+ deployment) ""
    || Js.includes "PLACEHOLDER"
         ("https://gateway.thegraph.com/api/" +:+
          Js.encodeURIComponent apiKey +:+ "/deployments/id/" +:+ deployment) =
    Js.includes "PLACEHOLDER" (Js.encodeURIComponent apiKey).
Proof.
  intros Hin.
  destruct (resolve_supported n apiKey Hin)
    as (deployment & Htemplate & Hurl & _ & Hpost).
  exists deployment. split; [exact Htemplate|]. split; [exact Hurl|].
  exact (placeholder_in_address (Js.encodeURIComponent apiKey) deployment Hpost).
Qed.

Lemma subgraph_url_resolved_witness :
  exists deployment,
    SUBGRAPH_URLS !! Js.toString 250 =
      Some ("https://gateway.thegraph.com/api/[api-key]/deployments/id/" +:+
            deployment) /\
    resolveSubgraphUrl (Js.toString 250) "a key/1" =
      Some ("https://gateway.thegraph.com/api/" +:+
            Js.encodeURIComponent "a key/1" +:+ "/deployments/id/" +:+
            deployment) /\
    String.eqb
      ("https://gateway.thegraph.com/api/" +:+
       Js.encodeURIComponent "a key/1" +:+ "/deployments/id/" +:+ deployment) ""
    || Js.includes "PLACEHOLDER"
         ("https://gateway.thegraph.com/api/" +:+
          Js.encodeURIComponent "a key/1" +:+ "/deployments/id/" +:+
          deployment) =
    Js.includes "PLACEHOLDER" (Js.encodeURIComponent "a key/1").
Proof.
  apply (subgraph_url_resolved 250 "a key/1"). vm_compute. tauto.
Defined.

Example resolved_example :
  resolveSubgraphUrl "250" "a key/1" =
  Some "https://gateway.thegraph.com/api/a%20key%2F1/deployments/id/QmZ3Zs57Bt9njPji3Ty6A9761hwQaHYYGMCjs5f7oiidxz".
Proof. vm_compute. reflexivity. Qed.

(** X14. A credential that contains the text [PLACEHOLDER] is refused on
    every supported chain: [returnTags] throws the error of a subgraph that
    is not configured, a configuration error that names the chain as given,
    and sends nothing. *)
Theorem placeholder_credential_refused (gateway : Gateway) (fuel : nat)
    (chainId apiKey : string) (w : World) :
  Js.testDecimal (Js.trim chainId) = true ->
  In (Js.Number (Js.trim chainId)) supportedChains ->
  apiKeyGiven apiKey = true ->
  Js.includes "PLACEHOLDER" apiKey = true ->
  returnTags gateway fuel chainId apiKey w =
    (Thrown (SubgraphUrlNotConfigured chainId), w) /\
  errorKind (SubgraphUrlNotConfigured chainId) = ConfigurationError /\
  errorMessage (SubgraphUrlNotConfigured chainId) =
    "Subgraph URL not configured for Chain ID: " +:+ chainId +:+
    ". Please provide the official Messari Sushiswap subgraph URL.".
Proof.
  intros Hdigits Hchain Hkey Hplace.
  split; [|split; reflexivity].
  destruct (resolve_supported _ apiKey Hchain)
    as (deployment & _ & Hurl & _ & Hpost).
  rewrite (returnTags_accepted _ _ _ _ _ Hdigits Hchain), Hkey, Hurl.
  cbn [negb].
  rewrite (placeholder_in_address _ _ Hpost).
  apply includes_elim in Hplace as (a & b & ->).
  rewrite !encodeURIComponent_append.
  change (Js.encodeURIComponent "PLACEHOLDER") with "PLACEHOLDER".
  rewrite includes_intro, orb_true_r. reflexivity.
Qed.

Lemma placeholder_credential_refused_witness :
  returnTags (scripted [metaReply 7; pageReply [poolA; poolB]]) 1 "137"
    "MY-PLACEHOLDER-KEY" quiet =
    (Thrown (SubgraphUrlNotConfigured "137"), quiet) /\
  errorKind (SubgraphUrlNotConfigured "137") = ConfigurationError /\
  errorMessage (SubgraphUrlNotConfigured "137") =
    "Subgraph URL not configured for Chain ID: " +:+ "137" +:+
    ". Please provide the official Messari Sushiswap subgraph URL.".
Proof.
  apply (placeholder_credential_refused
           (scripted [metaReply 7; pageReply [poolA; poolB]]) 1 "137"
           "MY-PLACEHOLDER-KEY" quiet); try reflexivity.
  vm_compute. tauto.
Defined.

(** X15. In the address resolved for a supported chain the credential only
    appears escaped, as unreserved characters and percent escapes, and the
    placeholder [[api-key]] of the template is gone, whatever the
    credential. *)
Theorem placeholder_always_replaced (n : Z) (apiKey subgraphUrl : string) :
  In n supportedChains ->
  resolveSubgraphUrl (Js.toString n) apiKey = Some subgraphUrl ->
  Js.includes "[api-key]" subgraphUrl = false /\
  escaped (Js.encodeURIComponent apiKey) = true /\
  occurs "/" (Js.encodeURIComponent apiKey) = false.
Proof.
  intros Hin Hurl.
  pose proof (encodeURIComponent_escaped apiKey) as Hescaped.
  split; [|split; [exact Hescaped | now apply escaped_occurs]].
  destruct (resolve_supported n apiKey Hin)
    as (deployment & _ & Hurl' & Hdeployment & _).
  rewrite Hurl' in Hurl. injection Hurl as <-.
  destruct (Js.includes "[api-key]" _) eqn:Hfound; [|reflexivity].
  apply includes_occurs in Hfound.
  rewrite occurs_append in Hfound. cbn [occurs] in Hfound.
  rewrite occurs_append in Hfound. cbn [occurs] in Hfound.
  rewrite occurs_append, Hdeployment in Hfound.
  rewrite (escaped_occurs "[" _ Hescaped) in Hfound by reflexivity.
  vm_compute in Hfound. discriminate Hfound.
Qed.

Lemma placeholder_always_replaced_witness :
  Js.includes "[api-key]"
    "https://gateway.thegraph.com/api/%5Bapi-key%5D/deployments/id/QmZw2kXL8tt6FoNeo4qLSN3rbe9tkWtGxDtBV3iWJMEkf7" =
    false /\
  escaped (Js.encodeURIComponent "[api-key]") = true /\
  occurs "/" (Js.encodeURIComponent "[api-key]") = false.
Proof.
  apply (placeholder_always_replaced 1285 "[api-key]").
  - vm_compute. tauto.
  - vm_compute. reflexivity.
Defined.

(** ** Failures in the middle of the pages *)

(** X16. When the page fetcher returns full pages that end in fresh
    cursors and then throws, the loop throws that very error, whatever it
    has accumulated, and has sent one pools query per page returned and one
    for the failure: nothing is asked twice. *)
Theorem page_failure_propagates (gateway : Gateway) (subgraphUrl : string)
    (blockNumber : Z) (e : Error) (pages : list (list LiquidityPool.t)) :
  forall (cursor prev : string) (allPools : list LiquidityPool.t) (w : World)
         (fuel : nat),
    servedUntil gateway subgraphUrl blockNumber w cursor pages e ->
    Forall (fun page => length page = 1000%nat) pages ->
    advancing cursor prev pages ->
    (length pages < fuel)%nat ->
    fst (paginate gateway fuel subgraphUrl blockNumber cursor prev allPools w) =
      Thrown e /\
    length (requests (snd (paginate gateway fuel subgraphUrl blockNumber cursor
                             prev allPools w))) =
      (length (requests w) + length pages + 1)%nat.
Proof.
  induction pages as [|page rest IH];
    intros cursor prev allPools w fuel Hserved Hfull Hadv Hfuel;
    (destruct fuel as [|fuel]; [simpl in Hfuel; lia|]);
    pose proof (fetchPools_sends gateway subgraphUrl blockNumber cursor w)
      as [Hsent _]; cbn [servedUntil] in Hserved.
  - rewrite (paginate_fetch_thrown gateway subgraphUrl blockNumber fuel cursor
               prev allPools w
               (snd (fetchPools gateway subgraphUrl cursor blockNumber w)) e)
      by (rewrite <- Hserved; apply surjective_pairing).
    cbn [fst snd]. split; [reflexivity|].
    rewrite Hsent, length_app. cbn. lia.
  - destruct Hserved as [Hpage Hrest].
    apply Forall_cons in Hfull as [Hlen Hfull].
    destruct Hadv as (Hne & Hcur & Hprev & Hadv).
    rewrite (paginate_advance gateway subgraphUrl blockNumber fuel cursor prev
               allPools page w
               (snd (fetchPools gateway subgraphUrl cursor blockNumber w)))
      by (try assumption; rewrite <- Hpage; apply surjective_pairing).
    destruct (IH _ _ (allPools ++ page) _ fuel Hrest Hfull Hadv
                ltac:(simpl in Hfuel; lia)) as [-> ->].
    split; [reflexivity|]. rewrite Hsent, length_app. cbn. lia.
Qed.

Lemma page_failure_propagates_witness :
  fst (paginate (scripted [pageReply (uniformPage "0x01")]) 2 exampleUrl 7
         initialCursor "" [] quiet) = Thrown PoolsTimedOut /\
  length (requests (snd (paginate (scripted [pageReply (uniformPage "0x01")]) 2
                           exampleUrl 7 initialCursor "" [] quiet))) =
    (length (requests quiet) + length [uniformPage "0x01"] + 1)%nat.
Proof.
  apply (page_failure_propagates (scripted [pageReply (uniformPage "0x01")])
           exampleUrl 7 PoolsTimedOut [uniformPage "0x01"] initialCursor "" []
           quiet 2).
  - split; vm_compute; reflexivity.
  - constructor; [vm_compute; reflexivity | constructor].
  - vm_compute. repeat split; discriminate.
  - simpl. lia.
Defined.

(** ** The console *)

Lemma fetchPools_console (gateway : Gateway) (subgraphUrl cursor : string)
    (blockNumber : Z) (w : World) :
  console (snd (fetchPools gateway subgraphUrl cursor blockNumber w)) =
    console w \/
  fst (fetchPools gateway subgraphUrl cursor blockNumber w) =
    Thrown GraphQLErrorPools.
Proof.
  rewrite fetchPools_outcome. cbv zeta.
  destruct (gateway _ _) as [response| |reason]; [|now left..].
  destruct (ok response); [|now left].
  destruct (body response) as [| |result]; [now left..|].
  destruct (errors result); [now right | now left].
Qed.

Lemma paginate_console (gateway : Gateway) (subgraphUrl : string)
    (blockNumber : Z) (fuel : nat) :
  forall (cursor prev : string) (allPools : list LiquidityPool.t) (w : World),
    console (snd (paginate gateway fuel subgraphUrl blockNumber cursor prev
                    allPools w)) = console w \/
    fst (paginate gateway fuel subgraphUrl blockNumber cursor prev allPools w) =
      Thrown GraphQLErrorPools.
Proof.
  induction fuel as [|fuel IH]; intros cursor prev allPools w; [now left|].
  pose proof (fetchPools_console gateway subgraphUrl cursor blockNumber w)
    as Hconsole.
  pose proof (fetchPools_sends gateway subgraphUrl blockNumber cursor w)
    as [_ Hends].
  destruct (fetchPools gateway subgraphUrl cursor blockNumber w)
    as [[page|e|] w'] eqn:Hfetch; cbn [fst snd] in Hconsole, Hends;
    [| |contradiction].
  - destruct Hconsole as [Hsame|Hno]; [|discriminate Hno].
    rewrite (paginate_round _ _ _ _ _ _ _ _ _ _ Hfetch).
    destruct (length page =? 1000)%nat; [|now left].
    destruct (_ || _); [now left|].
    destruct (IH (nextCursor page) cursor (allPools ++ page) w') as [Hrest|Hrest];
      [left; congruence | now right].
  - rewrite (paginate_fetch_thrown _ _ _ _ _ _ _ _ _ _ Hfetch). cbn [fst snd].
    destruct Hconsole as [Hsame|Hthrown]; [now left | now right].
Qed.

(** X17. [returnTags] writes to the console in one case only, the pools
    reply with an [errors] member, in which it throws the query error; in
    every other run, and in particular whenever it returns tags, the console
    is as it was. *)
Theorem console_only_on_query_error (gateway : Gateway) (fuel : nat)
    (chainId apiKey : string) (w : World) :
  console (snd (returnTags gateway fuel chainId apiKey w)) = console w \/
  fst (returnTags gateway fuel chainId apiKey w) = Thrown GraphQLErrorPools.
Proof.
  destruct (returnTags_cases gateway fuel chainId apiKey w)
    as [(e & -> & _)|(subgraphUrl & _ & _ & _ & _ & _ & ->)]; [now left|].
  assert (Hmeta : console (snd (fetchIndexedBlockNumber gateway subgraphUrl w)) =
                  console w).
  { unfold fetchIndexedBlockNumber, bind, fetch.
    destruct (gateway _ _) as [resp| |reason]; cbn; [|reflexivity..].
    destruct (ok resp); cbn; [|reflexivity].
    destruct (body resp) as [| |document]; cbn; [reflexivity..|].
    now destruct (data document ≫= meta_block_number). }
  unfold bind.
  destruct (fetchIndexedBlockNumber gateway subgraphUrl w)
    as [[blockNumber|e|] w1]; cbn [fst snd] in Hmeta; cbn iota beta;
    [|left; exact Hmeta..].
  pose proof (paginate_console gateway subgraphUrl blockNumber fuel
                initialCursor "" [] w1) as Hloop.
  destruct (paginate gateway fuel subgraphUrl blockNumber initialCursor "" [] w1)
    as [[allPools|e|] w2]; cbn [fst snd] in Hloop; cbn iota beta;
    unfold ret; cbn [fst snd];
    (destruct Hloop as [Hsame|Hthrown]; [left; congruence|]);
    [discriminate Hthrown | right; now injection Hthrown as -> |
     discriminate Hthrown].
Qed.
